(** * challenge_fetcher.parser: link resolver and text sanitiser

    A shallow embedding of [src/challenge_fetcher/parser.py].

    - Python [str] values are [string]s; a character is a code point below
      256 (the Latin-1 range), which is where the character classes of the
      [re] module are tabulated below.
    - A [bs4] tree is the inductive [PageElement]; an element of the tree is
      addressed by its path from the root, which plays the role of the
      Python object identity.
    - The three compiled patterns and the pattern of [re.sub] are written
      with backtracking combinators in continuation-passing style, one
      combinator per construct of the pattern.
    - The body of [convert_urls_to_markdown] runs in a small state and
      exception monad over the content tree and the [remote_content]
      dictionary (a [gmap string string]).
    - The module reads two constants of [challenge_fetcher.scraper], which
      it imports; they are parameters here. It calls [sanitise_file_name],
      which it neither defines nor imports: the call raises [NameError]. *)

From Stdlib Require Import Ascii String.
From stdpp Require Import base option list strings gmap fin_maps.

Set Warnings "-register-all".

Local Open Scope string_scope.
Local Open Scope list_scope.

#[local] Arguments String.append : simpl nomatch.

(** ** Characters and strings *)

Module PyStr.

(** The line feed, the only character the pattern [.] rejects. *)
Definition LF : ascii := "010"%char.

Definition code (c : ascii) : nat := nat_of_ascii c.

Definition in_range (lo hi : nat) (c : ascii) : bool :=
  (lo <=? code c)%nat && (code c <=? hi)%nat.

(** [\d] on [str] patterns: the decimal digits. Below 256 these are
    exactly [0-9]. *)
Definition is_digit (c : ascii) : bool := in_range 48 57 c.

(** [\w] on [str] patterns: alphanumeric code points and the underscore.
    Below 256 the alphanumerics are the ASCII letters and digits, the
    Latin-1 letters, the superscript digits and the vulgar fractions. *)
Definition is_word (c : ascii) : bool :=
  in_range 48 57 c || in_range 65 90 c || in_range 97 122 c
  || (code c =? 95)%nat
  || (code c =? 170)%nat || in_range 178 179 c || (code c =? 181)%nat
  || in_range 185 186 c || in_range 188 190 c
  || in_range 192 214 c || in_range 216 246 c || in_range 248 255 c.

(** [.] without [re.DOTALL]: anything but a line feed. *)
Definition is_dot (c : ascii) : bool := negb (Ascii.eqb c LF).

(** All characters of a string satisfy a class. *)
Fixpoint all_chars (p : ascii -> bool) (s : string) : bool :=
  match s with
  | EmptyString => true
  | String c s' => p c && all_chars p s'
  end.

(** The first character, if any, satisfies a class. *)
Definition starts_in (p : ascii -> bool) (s : string) : bool :=
  match s with
  | EmptyString => false
  | String c _ => p c
  end.

(** [c in s] for a one-character [c]. *)
Fixpoint mem_char (c : ascii) (s : string) : bool :=
  match s with
  | EmptyString => false
  | String d s' => Ascii.eqb c d || mem_char c s'
  end.

(** [str.replace(old, new)] for a one-character [old]. *)
Fixpoint replace_char (old : ascii) (new : string) (s : string) : string :=
  match s with
  | EmptyString => EmptyString
  | String c s' =>
      if Ascii.eqb c old then new +:+ replace_char old new s'
      else String c (replace_char old new s')
  end.

(** [s.startswith(prefix)] *)
Fixpoint startswith (prefix : string) (s : string) : bool :=
  match prefix with
  | EmptyString => true
  | String a prefix' =>
      match s with
      | EmptyString => false
      | String c s' => Ascii.eqb a c && startswith prefix' s'
      end
  end.

(** [old in s] for a non-empty [old]: some suffix of [s] starts with it. *)
Fixpoint contains (old : string) (s : string) : bool :=
  startswith old s ||
  match s with
  | EmptyString => false
  | String _ s' => contains old s'
  end.

(** Formatting a value that may be [None] inside an f-string. *)
Definition format (o : option string) : string :=
  match o with
  | Some s => s
  | None => "None"
  end.

End PyStr.

(** ** Backtracking matchers

    A matcher consumes a prefix of the subject and hands the rest to its
    continuation; when the continuation fails the matcher tries its next
    alternative, as the [re] engine does. *)

Module Re.
Import PyStr.

Section Combinators.
Context {R : Type}.

Definition matcher := string -> option R.

(** A literal string. *)
Fixpoint lit (l : string) (k : matcher) (s : string) : option R :=
  match l with
  | EmptyString => k s
  | String a l' =>
      match s with
      | EmptyString => None
      | String c s' => if Ascii.eqb a c then lit l' k s' else None
      end
  end.

(** [(g)?], greedy: first with the group, then without. *)
Definition opt (g : matcher -> matcher) (k : matcher) (s : string) : option R :=
  match g k s with
  | Some r => Some r
  | None => k s
  end.

(** [g1|g2]: the left alternative first. *)
Definition alt (g1 g2 : matcher -> matcher) (k : matcher) (s : string) : option R :=
  match g1 k s with
  | Some r => Some r
  | None => g2 k s
  end.

(** [p+] after [acc] was consumed, greedy: one character of the class,
    then as many more as the continuation allows. The continuation
    receives the text the repetition consumed. *)
Fixpoint plus_greedy_from (p : ascii -> bool) (k : string -> matcher)
    (acc : string) (s : string) : option R :=
  match s with
  | EmptyString => None
  | String c s' =>
      if p c then
        let acc' := acc +:+ String c EmptyString in
        match plus_greedy_from p k acc' s' with
        | Some r => Some r
        | None => k acc' s'
        end
      else None
  end.

Definition plus_greedy (p : ascii -> bool) (k : string -> matcher) : matcher :=
  plus_greedy_from p k EmptyString.

(** [p+?] after [acc] was consumed, lazy: one character of the class,
    then the continuation, and one more character only if it fails. *)
Fixpoint plus_lazy_from (p : ascii -> bool) (k : string -> matcher)
    (acc : string) (s : string) : option R :=
  match s with
  | EmptyString => None
  | String c s' =>
      if p c then
        let acc' := acc +:+ String c EmptyString in
        match k acc' s' with
        | Some r => Some r
        | None => plus_lazy_from p k acc' s'
        end
      else None
  end.

Definition plus_lazy (p : ascii -> bool) (k : string -> matcher) : matcher :=
  plus_lazy_from p k EmptyString.

End Combinators.

(** [re.compile(r"^problem=(?P<number>\d+)").search]: the pattern is
    anchored and not multi-line, so the search can only succeed at the
    first position. The result is the group [number]. *)
Definition CHALLENGE_URL_REGEX (url : string) : option string :=
  lit "problem=" (plus_greedy is_digit (fun number _ => Some number)) url.

(** [re.compile(r"^(project\/)?(resources|images)\/(.+\/)?(?P<filename>.+)").search];
    the result is the group [filename]. *)
Definition RESOURCE_URL_REGEX (url : string) : option string :=
  opt (lit "project/")
    (alt (lit "resources") (lit "images")
      (lit "/"
        (opt (fun k => plus_greedy is_dot (fun _ => lit "/" k))
          (plus_greedy is_dot (fun filename _ => Some filename)))))
    url.

(** [re.compile(r"^about=(\w+)").search]; the result is group 1. *)
Definition ABOUT_URL_REGEX (url : string) : option string :=
  lit "about=" (plus_greedy is_word (fun word _ => Some word)) url.

(** The pattern [\\operatorname\{(.+?)\}(.+?)=] tried at the start of the
    subject: groups 1 and 2 and the text after the match. *)
Definition operatorname_match (s : string) : option (string * string * string) :=
  lit "\operatorname{"
    (plus_lazy is_dot (fun A =>
       lit "}"
         (plus_lazy is_dot (fun B =>
            lit "=" (fun rest => Some (A, B, rest))))))
    s.

End Re.

Import PyStr Re.

(** ** The document tree of [bs4] *)

Module Bs4.

(** A node of the parsed fragment: a text node, a comment, or a tag with
    its attribute dictionary and its children. A comment is a string node
    too, of a subclass that [.text] leaves out. *)
Inductive PageElement : Type :=
| NavigableString (s : string)
| Comment (s : string)
| Tag (name : string) (attrs : list (string * string)) (contents : list PageElement).

(** The position of a node below the root: child indices, outermost
    first. Two nodes are the same Python object iff their paths agree. *)
Definition path := list nat.

Fixpoint attr_lookup (key : string) (attrs : list (string * string)) : option string :=
  match attrs with
  | [] => None
  | (k, v) :: attrs' => if String.eqb k key then Some v else attr_lookup key attrs'
  end.

(** [tag.get(key)]: the attribute, or [None]. *)
Definition get (e : PageElement) (key : string) : option string :=
  match e with
  | NavigableString _ | Comment _ => None
  | Tag _ attrs _ => attr_lookup key attrs
  end.

Definition contents (e : PageElement) : list PageElement :=
  match e with
  | NavigableString _ | Comment _ => []
  | Tag _ _ cs => cs
  end.

Definition has_name (name : string) (e : PageElement) : bool :=
  match e with
  | NavigableString _ | Comment _ => false
  | Tag n _ _ => String.eqb n name
  end.

(** The tags called [name] among the descendants of [e], in document
    order, each with its path; [e] itself sits at [here]. *)
Fixpoint find_all_from (name : string) (here : path) (e : PageElement)
    : list (path * PageElement) :=
  match e with
  | NavigableString _ | Comment _ => []
  | Tag _ _ cs =>
      (fix children (i : nat) (cs : list PageElement) : list (path * PageElement) :=
         match cs with
         | [] => []
         | c :: cs' =>
             (if has_name name c then [(here ++ [i], c)] else [])
             ++ find_all_from name (here ++ [i]) c
             ++ children (S i) cs'
         end) 0 cs
  end.

(** The inner loop of [find_all_from] on its own: the matches in the
    children [cs] of the node at [here], the first of which has index [i]. *)
Fixpoint find_all_children (name : string) (here : path) (i : nat)
    (cs : list PageElement) : list (path * PageElement) :=
  match cs with
  | [] => []
  | c :: cs' =>
      (if has_name name c then [(here ++ [i], c)] else [])
      ++ find_all_from name (here ++ [i]) c
      ++ find_all_children name here (S i) cs'
  end.

(** [tag.find_all(name)]: the list is built before the caller iterates. *)
Definition find_all (e : PageElement) (name : string) : list (path * PageElement) :=
  find_all_from name [] e.

(** [element.string]: a string node itself, be it text or comment; for a
    tag, the [string] of its only child, and [None] when it has no child or
    several. *)
Fixpoint element_string (e : PageElement) : option string :=
  match e with
  | NavigableString s => Some s
  | Comment s => Some s
  | Tag _ _ [c] => element_string c
  | Tag _ _ _ => None
  end.

(** [tag.text]: the text nodes below the tag, concatenated; comments
    are no part of it. *)
Fixpoint text (e : PageElement) : string :=
  match e with
  | NavigableString s => s
  | Comment _ => EmptyString
  | Tag _ _ cs =>
      (fix join (cs : list PageElement) : string :=
         match cs with
         | [] => EmptyString
         | c :: cs' => text c +:+ join cs'
         end) cs
  end.

(** The tree [root] with the node at path [p] exchanged for [new]. A path
    that leads through a string node reaches nothing and leaves the tree
    as it is. *)
Fixpoint replace_at (p : path) (new : PageElement) (root : PageElement) : PageElement :=
  match p with
  | [] => new
  | i :: p' =>
      match root with
      | NavigableString _ | Comment _ => root
      | Tag n a cs => Tag n a (alter (replace_at p' new) i cs)
      end
  end.

(** [element.replace_with(s)] seen from [root]: the element at path [p]
    makes room for a text node. An element below an anchor that was
    replaced before is no longer part of [root]; replacing it changes
    only the detached subtree. *)
Definition replace_with (p : path) (s : string) (root : PageElement) : PageElement :=
  replace_at p (NavigableString s) root.

(** The node at path [p], if the path leads to one. *)
Fixpoint node_at (p : path) (root : PageElement) : option PageElement :=
  match p with
  | [] => Some root
  | i :: p' =>
      match contents root !! i with
      | Some c => node_at p' c
      | None => None
      end
  end.

End Bs4.

Import Bs4.

(** ** State and exceptions *)

Module Py.

Inductive exception : Type :=
| KeyError (msg : string)
| NameError (msg : string)
| NotImplementedError (msg : string)
| TypeError.

Inductive outcome (A : Type) : Type :=
| Returned (a : A)
| Raised (e : exception).
Arguments Returned {A} a.
Arguments Raised {A} e.

(** What an invocation of [convert_urls_to_markdown] can change: the tree
    it was handed and its local dictionary. *)
Record store : Type := Store {
  tree : PageElement;
  remote_content : gmap string string
}.

Definition M (A : Type) : Type := store -> store * outcome A.

Definition ret {A} (a : A) : M A := fun st => (st, Returned a).

Definition raise {A} (e : exception) : M A := fun st => (st, Raised e).

Definition bind {A B} (m : M A) (k : A -> M B) : M B :=
  fun st =>
    match m st with
    | (st', Returned a) => k a st'
    | (st', Raised e) => (st', Raised e)
    end.

Definition get_remote_content : M (gmap string string) :=
  fun st => (st, Returned (remote_content st)).

Definition set_item (key value : string) : M unit :=
  fun st => (Store (tree st) (<[key := value]> (remote_content st)), Returned tt).

Definition modify_tree (f : PageElement -> PageElement) : M unit :=
  fun st => (Store (f (tree st)) (remote_content st), Returned tt).

(** [for x in xs: body(x)] *)
Fixpoint for_each {A} (xs : list A) (body : A -> M unit) : M unit :=
  match xs with
  | [] => ret tt
  | x :: xs' => bind (body x) (fun _ => for_each xs' body)
  end.

End Py.

Import Py.

Declare Scope py_scope.
Delimit Scope py_scope with py.
Notation "'do' x <- m 'in' k" := (bind m (fun x => k))
  (at level 10, x name, m at level 100, k at level 200) : py_scope.

(** ** The link resolver *)

(** The two constants the resolver reads from [challenge_fetcher.scraper],
    a module it imports and whose source is not at hand. The resolver is
    modelled for arbitrary ones. *)
Class Globals : Type := {
  CHALLENGE_URL_BASE : string;
  URL_BASE : string
}.

(** [sanitise_file_name(...)] at line 112. The module neither defines nor
    imports this name, and it is no builtin: looking it up raises
    [NameError] before the call takes place, whatever the argument. *)
Definition sanitise_file_name (filename : string) : M string :=
  raise (NameError "name 'sanitise_file_name' is not defined").

(** The four ways the if/elif chain of the loop can go for an [href]. *)
Inductive classification : Type :=
| ChallengeReference
| ResourceReference
| AboutReference
| Unknown.

Definition classify (url : string) : classification :=
  match CHALLENGE_URL_REGEX url, RESOURCE_URL_REGEX url, ABOUT_URL_REGEX url with
  | Some _, _, _ => ChallengeReference
  | None, Some _, _ => ResourceReference
  | None, None, Some _ => AboutReference
  | None, None, None => Unknown
  end.

(** The classification of a link element; a link without [href] has none. *)
Definition link_class (link : PageElement) : option classification :=
  classify <$> get link "href".

(** [q] is [p] or a path to a node above [p]. *)
Fixpoint path_prefix (q p : path) : bool :=
  match q, p with
  | [], _ => true
  | i :: q', j :: p' => (i =? j)%nat && path_prefix q' p'
  | _ :: _, [] => false
  end.

(** No link of [others] sits at [p] or above it. *)
Definition outermost (p : path) (others : list (path * PageElement)) : bool :=
  forallb (fun other => negb (path_prefix (fst other) p)) others.

(** No link of the list sits at or above a link listed before it: the
    order of a walk that visits a node before the nodes inside it and
    never comes back to it. *)
Fixpoint document_order (links : list (path * PageElement)) : bool :=
  match links with
  | [] => true
  | link :: links' => outermost (fst link) links' && document_order links'
  end.

(** No link of [links] sits at [p] or below it. *)
Definition holds_no_link (p : path) (links : list (path * PageElement)) : bool :=
  forallb (fun link => negb (path_prefix p (fst link))) links.

Section LinkResolver.
Context `{Globals}.

(** The branch of the loop body that chooses the new link target.
    [url] is the [href] of the link; the three patterns are tried in the
    order challenge, resource, about. The resource branch begins with the
    call of [sanitise_file_name], so what follows the call in that branch
    is never run. *)
Definition resolve (url : string) : M string :=
  (let challenge_match := CHALLENGE_URL_REGEX url in
   let resource_match := RESOURCE_URL_REGEX url in
   let about_match := ABOUT_URL_REGEX url in
   match challenge_match with
   | Some challenge_number =>
       ret (CHALLENGE_URL_BASE +:+ challenge_number)
   | None =>
       match resource_match with
       | Some filename =>
           do file_name <- sanitise_file_name filename in
           let remote_url := URL_BASE +:+ url in
           let url := "./" +:+ file_name in
           do remote <- get_remote_content in
           match remote !! file_name with
           | Some _ =>
               raise (KeyError ("Multiple resources found with the name " +:+ file_name))
           | None =>
               do _ <- set_item file_name remote_url in
               ret url
           end
       | None =>
           match about_match with
           | Some _ => ret (URL_BASE +:+ url)
           | None =>
               raise (NotImplementedError
                        ("A URL was found to an unknown resource type: " +:+ url))
           end
       end
   end)%py.

(** The body of the loop for one element of [content.find_all("a")]. A
    link without [href] makes [search] raise [TypeError]. The element is
    read as [find_all] found it: when its turn comes, only elements that
    precede it in document order were replaced, and none of those lies
    inside it. *)
Definition convert_link (link : path * PageElement) : M unit :=
  (match get (snd link) "href" with
   | None => raise TypeError
   | Some url =>
       do url <- resolve url in
       modify_tree
         (replace_with (fst link)
            ("[" +:+ format (element_string (snd link)) +:+ "](" +:+ url +:+ ")"))
   end)%py.

(** The loop over the links of [content], from an empty dictionary. *)
Definition convert_links (links : list (path * PageElement)) : M unit :=
  for_each links convert_link.

Definition convert_urls_to_markdown (content : PageElement)
    : store * outcome (option (gmap string string)) :=
  (do _ <- convert_links (find_all content "a") in
   do remote <- get_remote_content in
   if decide (remote = ∅) then ret None else ret (Some remote))%py
  (Store content ∅).

End LinkResolver.

(** ** The text sanitiser *)

(** The replacement template [\\mathop{\\text{\1}}\2=] for groups [A], [B]. *)
Definition operatorname_replacement (A B : string) : string :=
  "\mathop{\text{" +:+ A +:+ "}}" +:+ B +:+ "=".

(** [re.sub] for the operator-name pattern: the matches are taken from
    left to right without overlap, every match is exchanged for the
    expanded template and every other character is kept. A match is never
    empty, so [fuel] steps suffice for a subject of [fuel] characters. *)
Fixpoint operatorname_sub_fuel (fuel : nat) (s : string) : string :=
  match fuel with
  | O => EmptyString
  | S fuel' =>
      match operatorname_match s with
      | Some (A, B, rest) =>
          operatorname_replacement A B +:+ operatorname_sub_fuel fuel' rest
      | None =>
          match s with
          | EmptyString => EmptyString
          | String c s' => String c (operatorname_sub_fuel fuel' s')
          end
      end
  end.

Definition operatorname_sub (s : string) : string :=
  operatorname_sub_fuel (String.length s) s.

Definition hard_break : string := "  " +:+ String LF EmptyString.

Definition sanitise_tag_text (description : PageElement) (github_workaround : bool) : string :=
  let description_text := text description in
  let description_text := replace_char LF hard_break description_text in
  if github_workaround && contains "\operatorname" description_text
  then operatorname_sub description_text
  else description_text.

(** ** The file-name sanitiser *)

Module Sanitiser.

(** Modelled from the spec: [sanitise_file_name] is called by
    [convert_urls_to_markdown] but defined nowhere in the source file.
    The spec asks it to strip the characters that are unsafe in a local
    path or a Markdown link, at the least path separators, white space and
    the characters reserved on common file systems, and leaves the exact
    set open. The set here is: control characters and the space, the two
    path separators, and the reserved characters of Windows file names. *)
Definition unsafe (c : ascii) : bool :=
  (code c <=? 32)%nat || (code c =? 127)%nat
  || mem_char c "/\<>:|?*" || (code c =? 34)%nat.

(** Modelled from the spec: the file name without its unsafe characters. *)
Fixpoint sanitise_file_name (file_name : string) : string :=
  match file_name with
  | EmptyString => EmptyString
  | String c rest =>
      if unsafe c then sanitise_file_name rest
      else String c (sanitise_file_name rest)
  end.

End Sanitiser.

(** ** The text sanitiser in the words of the spec *)

Module Spec.

(** Every line feed becomes two spaces and a line feed; every other
    character stays. *)
Definition line_breaks (s : string) : string :=
  string_of_list_ascii
    (mbind (fun c => if Ascii.eqb c LF then [" "; " "; LF]%char else [c])
       (list_ascii_of_string s)).

(** A span that a lazy group followed by the character [close] captures:
    not empty, on one line, and with no [close] after its first
    character, so that it ends at the first [close] that can end it. *)
Definition lazy_span (close : ascii) (span : string) : bool :=
  match span with
  | EmptyString => false
  | String c span' =>
      is_dot c && all_chars is_dot span' && negb (mem_char close span')
  end.

(** Every line feed of [s] has two spaces or more right before it, when
    [spaces] spaces stand right before [s]. *)
Fixpoint hard_breaks_after (spaces : nat) (s : string) : bool :=
  match s with
  | EmptyString => true
  | String c s' =>
      if Ascii.eqb c LF then (2 <=? spaces)%nat && hard_breaks_after 0 s'
      else if Ascii.eqb c " " then hard_breaks_after (S spaces) s'
      else hard_breaks_after 0 s'
  end.

(** Every line feed of [s] ends a hard Markdown line break. *)
Definition hard_breaks_only (s : string) : bool := hard_breaks_after 0 s.

(** The operator-name pattern matches at no position of [before], when
    [rest] follows [before]. *)
Fixpoint begins_no_match (before rest : string) : bool :=
  match before with
  | EmptyString => true
  | String _ before' =>
      match operatorname_match (before +:+ rest) with
      | Some _ => false
      | None => begins_no_match before' rest
      end
  end.

(** What a scan from left to right without overlap makes of a text: where
    the pattern matches nowhere the text stays; otherwise the leftmost
    match [\operatorname{A}B=], with lazy spans [A] and [B], becomes
    [\mathop{\text{A}}B=], the text before it stays, and the scan goes on
    behind its equals sign. *)
Inductive rewritten : string -> string -> Prop :=
| rewritten_nothing (s : string) :
    begins_no_match s EmptyString = true ->
    rewritten s s
| rewritten_leftmost (before A B rest out : string) :
    begins_no_match before
      ("\operatorname{" +:+ A +:+ "}" +:+ B +:+ "=" +:+ rest) = true ->
    lazy_span "}" A = true ->
    lazy_span "=" B = true ->
    rewritten rest out ->
    rewritten
      (before +:+ "\operatorname{" +:+ A +:+ "}" +:+ B +:+ "=" +:+ rest)
      (before +:+ "\mathop{\text{" +:+ A +:+ "}}" +:+ B +:+ "=" +:+ out).

End Spec.

(** ** Sample pages *)

Module Sample.

(** The addresses of the Project Euler site, to run the resolver on
    examples. *)
Definition project_euler : Globals := {|
  CHALLENGE_URL_BASE := "https://projecteuler.net/problem=";
  URL_BASE := "https://projecteuler.net/"
|}.

Definition anchor (href : string) (children : list PageElement) : PageElement :=
  Tag "a" [("href", href)] children.

(** One challenge link, one resource link and one about link. *)
Definition three_links : PageElement :=
  Tag "div" []
    [ NavigableString "See ";
      anchor "problem=42" [NavigableString "problem 42"];
      Tag "p" []
        [ anchor "resources/img/plot.png" [NavigableString "the plot"];
          NavigableString " and ";
          anchor "about=puzzle" [] ] ].

(** One challenge link and one about link. *)
Definition two_links : PageElement :=
  Tag "div" []
    [ NavigableString "See ";
      anchor "problem=42" [NavigableString "problem 42"];
      Tag "p" []
        [ NavigableString " and ";
          anchor "about=puzzle" [NavigableString "the puzzle"];
          NavigableString "." ] ].

(** Two resource links with the same file name, then one more link. *)
Definition two_plots : PageElement :=
  Tag "div" []
    [ anchor "resources/a/plot.png" [NavigableString "first"];
      anchor "images/plot.png" [NavigableString "second"];
      anchor "problem=1" [NavigableString "later"] ].

(** A link of a kind the resolver does not know, then one more link. *)
Definition mail_link : PageElement :=
  Tag "div" []
    [ anchor "problem=007" [NavigableString "seven"];
      anchor "mailto:test@example.com" [NavigableString "mail"];
      anchor "about=late" [NavigableString "later"] ].

(** A link with two children. *)
Definition rich_link : PageElement :=
  Tag "div" []
    [ anchor "about=fonts"
        [ Tag "b" [] [NavigableString "bold"]; NavigableString " text" ] ].

(** A link inside a link: both are listed, the outer one first. *)
Definition nested_links : PageElement :=
  Tag "div" []
    [ anchor "problem=1"
        [ NavigableString "outer ";
          anchor "about=inner" [NavigableString "inner"] ] ].

(** A link that holds nothing but a comment. *)
Definition comment_link : PageElement :=
  Tag "div" [] [ anchor "about=hidden" [Comment "not shown"] ].

(** A text with an operator block that is not closed on its line, and a
    named operator on the next line. *)
Definition operator_text : PageElement :=
  Tag "p" []
    [ NavigableString "Let \operatorname{x";
      NavigableString (String LF "\operatorname{foo}(x)=1") ].

(** A named operator in the argument of another one. *)
Definition nested_operators : PageElement :=
  Tag "p" [] [ NavigableString "\operatorname{lcm}(a,\operatorname{gcd}(b,c))=1" ].

(** The resolver with the addresses of Project Euler. *)
Definition run (content : PageElement)
    : store * outcome (option (gmap string string)) :=
  @convert_urls_to_markdown project_euler content.

(** The links of the sample pages, as [find_all] lists them. *)
Definition challenge_42 : path * PageElement :=
  ([1], anchor "problem=42" [NavigableString "problem 42"]).
Definition plot : path * PageElement :=
  ([2; 0], anchor "resources/img/plot.png" [NavigableString "the plot"]).
Definition about_puzzle : path * PageElement :=
  ([2; 2], anchor "about=puzzle" []).
Definition the_puzzle : path * PageElement :=
  ([2; 1], anchor "about=puzzle" [NavigableString "the puzzle"]).
Definition first_plot : path * PageElement :=
  ([0], anchor "resources/a/plot.png" [NavigableString "first"]).
Definition second_plot : path * PageElement :=
  ([1], anchor "images/plot.png" [NavigableString "second"]).
Definition after_plots : path * PageElement :=
  ([2], anchor "problem=1" [NavigableString "later"]).
Definition challenge_007 : path * PageElement :=
  ([0], anchor "problem=007" [NavigableString "seven"]).
Definition mail : path * PageElement :=
  ([1], anchor "mailto:test@example.com" [NavigableString "mail"]).
Definition after_mail : path * PageElement :=
  ([2], anchor "about=late" [NavigableString "later"]).

(** A link without [href] between two links with one. *)
Definition bare_link : PageElement :=
  Tag "div" []
    [ anchor "about=first" [NavigableString "first"];
      Tag "a" [("name", "top")] [NavigableString "bare"];
      anchor "about=last" [NavigableString "last"] ].

Definition about_first : path * PageElement :=
  ([0], anchor "about=first" [NavigableString "first"]).
Definition bare : path * PageElement :=
  ([1], Tag "a" [("name", "top")] [NavigableString "bare"]).
Definition about_last : path * PageElement :=
  ([2], anchor "about=last" [NavigableString "last"]).

(** A text that names the macro and has a line end, but no operator block. *)
Definition macro_name_only : PageElement :=
  Tag "p" []
    [ NavigableString "The \operatorname macro";
      NavigableString (String LF "is not rendered.") ].

(** What Python says when it looks up [sanitise_file_name]. *)
Definition name_error : exception :=
  NameError "name 'sanitise_file_name' is not defined".

End Sample.

(** * Facts *)

(** ** Strings *)

Section StringFacts.

Lemma append_nil_r (s : string) : s +:+ EmptyString = s.
Proof. induction s as [|c s IH]; simpl; [done | by rewrite IH]. Qed.

Lemma append_assoc (s t u : string) : (s +:+ t) +:+ u = s +:+ (t +:+ u).
Proof. induction s as [|c s IH]; simpl; [done | by rewrite IH]. Qed.

Lemma append_snoc (s : string) (c : ascii) (t : string) :
  (s +:+ String c EmptyString) +:+ t = s +:+ String c t.
Proof. by rewrite append_assoc. Qed.

Lemma length_append (s t : string) :
  String.length (s +:+ t) = String.length s + String.length t.
Proof. induction s as [|c s IH]; simpl; [done | by rewrite IH]. Qed.

Lemma ascii_eqb_refl (c : ascii) : Ascii.eqb c c = true.
Proof. by apply Ascii.eqb_eq. Qed.

Lemma mem_char_split (d : ascii) (x : string) :
  mem_char d x = true -> exists x1 x2, x = x1 +:+ String d x2.
Proof.
  induction x as [|c x IH]; [done |]. cbn [mem_char].
  destruct (Ascii.eqb_spec d c) as [->|_].
  - intros _. by exists EmptyString, x.
  - intros Hin. destruct (IH Hin) as (x1 & x2 & ->). by exists (String c x1), x2.
Qed.

Lemma all_chars_append (p : ascii -> bool) (x1 x2 : string) :
  all_chars p (x1 +:+ x2) = all_chars p x1 && all_chars p x2.
Proof.
  induction x1 as [|c x1 IH]; [done |]. cbn [append all_chars].
  by rewrite IH, andb_assoc.
Qed.

End StringFacts.

(** ** Matchers *)

Section MatcherFacts.
Context {R : Type}.
Implicit Types (k : @matcher R) (p : ascii -> bool).

Lemma lit_append l k s : lit l k (l +:+ s) = k s.
Proof.
  induction l as [|a l IH]; simpl; [done |].
  by rewrite ascii_eqb_refl.
Qed.

(** A literal that matched stood at the start of the subject. *)
Lemma lit_Some l k s r :
  lit l k s = Some r -> exists s', s = l +:+ s' /\ k s' = Some r.
Proof.
  revert s. induction l as [|a l IH]; simpl; intros s Hm.
  - by exists s.
  - destruct s as [|c s]; [done |].
    destruct (Ascii.eqb_spec a c) as [->|]; [| done].
    destruct (IH _ Hm) as (s' & -> & Hk). by exists s'.
Qed.

(** A greedy repetition whose continuation accepts everything takes the
    whole run of class characters. *)
Lemma plus_greedy_from_run p acc run rest :
  run <> EmptyString ->
  all_chars p run = true ->
  starts_in p rest = false ->
  plus_greedy_from (R := string) p (fun x _ => Some x) acc (run +:+ rest)
  = Some (acc +:+ run).
Proof.
  revert acc. induction run as [|c run IH]; intros acc Hne Hall Hrest; [done |].
  simpl in *. apply andb_true_iff in Hall as [Hc Hall]. rewrite Hc.
  destruct run as [|d run].
  - simpl. destruct rest as [|e rest]; simpl in *; [done |].
    by rewrite Hrest.
  - rewrite IH by done. by rewrite append_snoc.
Qed.

(** Such a repetition succeeds as soon as the first character is in the
    class. *)
Lemma plus_greedy_from_first p acc c s :
  p c = true ->
  is_Some (plus_greedy_from (R := string) p (fun x _ => Some x) acc (String c s)).
Proof.
  intros Hc. simpl. rewrite Hc.
  by destruct (plus_greedy_from _ _ _ s).
Qed.

(** A lazy repetition stops at the first place where the literal that
    follows it is found and the rest of the pattern succeeds. *)
Lemma plus_lazy_from_stop p (d : ascii) (k' : string -> @matcher R) acc a span s r :
  p a = true ->
  all_chars p span = true ->
  mem_char d span = false ->
  k' (acc +:+ String a span) s = Some r ->
  plus_lazy_from p (fun x => lit (String d EmptyString) (k' x)) acc
    (String a span +:+ String d s) = Some r.
Proof.
  revert acc a. induction span as [|b span IH]; intros acc a Ha Hall Hd Hk.
  - simpl. rewrite Ha, ascii_eqb_refl. by rewrite Hk.
  - simpl in Hall, Hd. apply andb_true_iff in Hall as [Hb Hall].
    apply orb_false_iff in Hd as [Hdb Hd].
    change (String a (String b span) +:+ String d s)
      with (String a (String b span +:+ String d s)).
    cbn [plus_lazy_from]. rewrite Ha.
    cbn [append lit]. rewrite Hdb.
    apply IH; [done.. |]. by rewrite append_snoc.
Qed.

(** What a lazy repetition hands on is shorter than what it was given. *)
Lemma plus_lazy_from_shorter p (k : string -> @matcher R) acc s r :
  plus_lazy_from p k acc s = Some r ->
  exists x s', k x s' = Some r /\ String.length s' < String.length s.
Proof.
  revert acc. induction s as [|c s IH]; intros acc Hm; [done |].
  simpl in Hm. destruct (p c); [| done].
  destruct (k _ s) eqn:Hk.
  - injection Hm as <-. eexists _, s. split; [exact Hk | simpl; lia].
  - destruct (IH _ Hm) as (x & s' & Hx & Hlen).
    exists x, s'. split; [done | simpl; lia].
Qed.

(** What a lazy repetition consumed: a non-empty run of the class at which
    the continuation succeeded, after failing at every shorter one. *)
Lemma plus_lazy_from_Some p (k : string -> @matcher R) acc s r :
  plus_lazy_from p k acc s = Some r ->
  exists c x s',
    s = String c x +:+ s'
    /\ all_chars p (String c x) = true
    /\ k (acc +:+ String c x) s' = Some r
    /\ forall x1 d x2, x = x1 +:+ String d x2 ->
         k (acc +:+ String c x1) (String d x2 +:+ s') = None.
Proof.
  revert acc. induction s as [|c s IH]; intros acc Hm; [done |].
  cbn [plus_lazy_from] in Hm. destruct (p c) eqn:Hc; [| done].
  destruct (k (acc +:+ String c EmptyString) s) as [r'|] eqn:Hk.
  - injection Hm as ->. exists c, EmptyString, s. repeat split; try done.
    + cbn. by rewrite Hc.
    + intros x1 d x2 Hx. by destruct x1.
  - destruct (IH _ Hm) as (c' & x & s' & -> & Hall & Hk' & Hmin).
    exists c, (String c' x), s'. rewrite append_snoc in Hk'. repeat split; try done.
    + cbn [all_chars] in *. by rewrite Hc, Hall.
    + intros x1 d x2 Hx. destruct x1 as [|e x1].
      * cbn in Hx. injection Hx as <- <-. exact Hk.
      * cbn in Hx. injection Hx as <- ->.
        specialize (Hmin x1 d x2 eq_refl). by rewrite append_snoc in Hmin.
Qed.

(** A lazy repetition before a literal character finds the character if
    only characters of the class precede it. *)
Lemma plus_lazy_from_finds p (d : ascii) (f : string -> string -> R) acc c u t :
  all_chars p (String c u) = true ->
  is_Some (plus_lazy_from p
             (fun y => lit (String d EmptyString) (fun rest => Some (f y rest)))
             acc (String c u +:+ String d t)).
Proof.
  revert acc c. induction u as [|e u IH]; intros acc c Hall;
    cbn [all_chars] in Hall; apply andb_true_iff in Hall as [Hc Hall].
  - cbn. by rewrite Hc, ascii_eqb_refl.
  - change (String c (String e u) +:+ String d t)
      with (String c (String e u +:+ String d t)).
    cbn [plus_lazy_from]. rewrite Hc.
    destruct (lit _ _ _); [done |]. by apply IH.
Qed.

End MatcherFacts.

(** ** The three link patterns *)

Section PatternFacts.

Lemma challenge_match_digits (digits rest : string) :
  digits <> EmptyString ->
  all_chars is_digit digits = true ->
  starts_in is_digit rest = false ->
  CHALLENGE_URL_REGEX ("problem=" +:+ digits +:+ rest) = Some digits.
Proof.
  intros Hne Hall Hrest. unfold CHALLENGE_URL_REGEX.
  rewrite lit_append. unfold plus_greedy.
  by rewrite plus_greedy_from_run.
Qed.

Lemma about_match_word (c : ascii) (rest : string) :
  is_word c = true ->
  is_Some (ABOUT_URL_REGEX ("about=" +:+ String c rest)).
Proof.
  intros Hc. unfold ABOUT_URL_REGEX. rewrite lit_append.
  by apply plus_greedy_from_first.
Qed.

(** The patterns exclude each other: they require different first
    characters, or differ at the fourth. *)
Lemma resource_not_challenge (url filename : string) :
  RESOURCE_URL_REGEX url = Some filename -> CHALLENGE_URL_REGEX url = None.
Proof.
  unfold RESOURCE_URL_REGEX, opt, alt. intros Hm.
  repeat match type of Hm with
         | match ?m with _ => _ end = Some _ =>
             let E := fresh "E" in destruct m eqn:E
         end;
    try discriminate;
    match goal with
    | E : lit _ _ _ = Some _ |- _ => apply lit_Some in E as (s' & -> & _)
    end; reflexivity.
Qed.

Lemma about_not_challenge (rest : string) :
  CHALLENGE_URL_REGEX ("about=" +:+ rest) = None.
Proof. reflexivity. Qed.

Lemma about_not_resource (rest : string) :
  RESOURCE_URL_REGEX ("about=" +:+ rest) = None.
Proof. reflexivity. Qed.

Lemma classify_challenge (digits rest : string) :
  digits <> EmptyString ->
  all_chars is_digit digits = true ->
  starts_in is_digit rest = false ->
  classify ("problem=" +:+ digits +:+ rest) = ChallengeReference.
Proof.
  intros. unfold classify. by rewrite challenge_match_digits.
Qed.

Lemma classify_resource (url filename : string) :
  RESOURCE_URL_REGEX url = Some filename -> classify url = ResourceReference.
Proof.
  intros Hm. unfold classify.
  by rewrite (resource_not_challenge _ _ Hm), Hm.
Qed.

Lemma classify_resource_inv (url : string) :
  classify url = ResourceReference ->
  CHALLENGE_URL_REGEX url = None /\ is_Some (RESOURCE_URL_REGEX url).
Proof.
  unfold classify.
  destruct (CHALLENGE_URL_REGEX url), (RESOURCE_URL_REGEX url),
    (ABOUT_URL_REGEX url); try done; by eauto.
Qed.

Lemma classify_about (c : ascii) (rest : string) :
  is_word c = true -> classify ("about=" +:+ String c rest) = AboutReference.
Proof.
  intros Hc. unfold classify.
  rewrite about_not_challenge, about_not_resource.
  by destruct (about_match_word c rest Hc) as [w ->].
Qed.

End PatternFacts.

(** ** The document tree *)

Section TreeFacts.

(** Induction over a tree, with the hypothesis for every child of a tag. *)
Lemma PageElement_forall_ind (P : PageElement -> Prop) :
  (forall s, P (NavigableString s)) ->
  (forall s, P (Comment s)) ->
  (forall name attrs cs, Forall P cs -> P (Tag name attrs cs)) ->
  forall e, P e.
Proof.
  intros Hstring Hcomment Htag. fix IH 1. intros [s | s | name attrs cs].
  - apply Hstring.
  - apply Hcomment.
  - apply Htag. induction cs as [|c cs IHcs]; constructor; [apply IH | exact IHcs].
Qed.

Lemma find_all_from_Tag name here n attrs cs :
  find_all_from name here (Tag n attrs cs) = find_all_children name here 0 cs.
Proof.
  cbn [find_all_from]. generalize 0.
  induction cs as [|c cs IH]; intros i; [done |].
  cbn [find_all_children]. by rewrite IH.
Qed.

(** Every element [find_all_from] lists is found in the tree under the
    path it is listed with. *)
Lemma find_all_from_node_at name e :
  forall here p link,
    (p, link) ∈ find_all_from name here e ->
    exists q, p = here ++ q /\ node_at q e = Some link.
Proof.
  induction e as [s | s | n attrs cs IHcs] using PageElement_forall_ind;
    intros here p link Hin.
  - by apply elem_of_nil in Hin.
  - by apply elem_of_nil in Hin.
  - rewrite find_all_from_Tag in Hin.
    assert (forall i, (p, link) ∈ find_all_children name here i cs ->
              exists j q, p = here ++ (i + j) :: q
                          /\ match cs !! j with
                             | Some c => node_at q c = Some link
                             | None => False
                             end) as Hchildren.
    { clear Hin. induction cs as [|c cs IH]; intros i Hin.
      - by apply elem_of_nil in Hin.
      - apply Forall_cons in IHcs as [IHc IHcs].
        cbn [find_all_children] in Hin.
        rewrite !elem_of_app in Hin. destruct Hin as [Hin | [Hin | Hin]].
        + destruct (has_name name c); [| by apply elem_of_nil in Hin].
          apply list_elem_of_singleton in Hin. injection Hin as -> ->.
          exists 0, []. by rewrite Nat.add_0_r.
        + destruct (IHc _ _ _ Hin) as (q & -> & Hq).
          exists 0, q. by rewrite Nat.add_0_r, <- app_assoc.
        + destruct (IH IHcs _ Hin) as (j & q & -> & Hq).
          exists (S j), q. by rewrite Nat.add_succ_r. }
    destruct (Hchildren 0 Hin) as (j & q & -> & Hq).
    exists (j :: q). split; [done |]. cbn [node_at contents].
    by destruct (cs !! j).
Qed.

Lemma find_all_node_at content name p link :
  (p, link) ∈ find_all content name -> node_at p content = Some link.
Proof.
  intros Hin. by destruct (find_all_from_node_at _ _ _ _ _ Hin) as (q & -> & Hq).
Qed.

(** Replacing elsewhere neither removes the node at [p] ... *)
Lemma node_at_replace_at_is_Some q p new root :
  path_prefix q p = false ->
  is_Some (node_at p root) ->
  is_Some (node_at p (replace_at q new root)).
Proof.
  revert q root. induction p as [|j p IH]; intros q root Hq Hp; [done |].
  destruct q as [|i q]; [done |]. cbn [path_prefix] in Hq.
  destruct root as [s | s | n attrs cs]; [done.. |].
  cbn [replace_at node_at contents] in *.
  destruct (decide (i = j)) as [->|Hij].
  - rewrite Nat.eqb_refl in Hq. rewrite list_lookup_alter_eq.
    destruct (cs !! j) as [c|]; [| by destruct Hp]. by apply IH.
  - by rewrite list_lookup_alter_ne.
Qed.

(** ... nor touches a text node that sits there. *)
Lemma node_at_replace_at_text q p new root s :
  path_prefix q p = false ->
  node_at p root = Some (NavigableString s) ->
  node_at p (replace_at q new root) = Some (NavigableString s).
Proof.
  revert q root. induction p as [|j p IH]; intros q root Hq Hp.
  - destruct q as [|i q]; [done |]. by injection Hp as ->.
  - destruct q as [|i q]; [done |]. cbn [path_prefix] in Hq.
    destruct root as [t | t | n attrs cs]; [done.. |].
    cbn [replace_at node_at contents] in *.
    destruct (decide (i = j)) as [->|Hij].
    + rewrite Nat.eqb_refl in Hq. rewrite list_lookup_alter_eq.
      destruct (cs !! j) as [c|]; [| done]. by apply IH.
    + by rewrite list_lookup_alter_ne.
Qed.

(** Replacing a node that is neither above nor below [p] leaves the node
    at [p] as it is. *)
Lemma node_at_replace_at_apart q p new root :
  path_prefix q p = false ->
  path_prefix p q = false ->
  node_at p (replace_at q new root) = node_at p root.
Proof.
  revert q root. induction p as [|j p IH]; intros q root Hqp Hpq; [done |].
  destruct q as [|i q]; [done |]. cbn [path_prefix] in Hqp, Hpq.
  destruct root as [s | s | n attrs cs]; [done.. |].
  cbn [replace_at node_at contents].
  destruct (decide (i = j)) as [->|Hij].
  - rewrite Nat.eqb_refl in Hqp, Hpq. rewrite list_lookup_alter_eq.
    destruct (cs !! j) as [c|]; [| done]. by apply IH.
  - by rewrite list_lookup_alter_ne.
Qed.

(** Replacing the node at [p] puts the new node there. *)
Lemma node_at_replace_at_same p new root :
  is_Some (node_at p root) -> node_at p (replace_at p new root) = Some new.
Proof.
  revert root. induction p as [|j p IH]; intros root Hp; [done |].
  destruct root as [t | t | n attrs cs]; [by destruct Hp.. |].
  cbn [replace_at node_at contents] in *. rewrite list_lookup_alter_eq.
  destruct (cs !! j) as [c|]; [| by destruct Hp]. by apply IH.
Qed.

Lemma outermost_app p l1 l2 :
  outermost p (l1 ++ l2) = outermost p l1 && outermost p l2.
Proof. apply forallb_app. Qed.

Lemma outermost_true p links :
  outermost p links = true
  <-> forall q link, (q, link) ∈ links -> path_prefix q p = false.
Proof.
  unfold outermost. rewrite forallb_forall. split.
  - intros Hall q link Hin. apply negb_true_iff.
    by apply (Hall (q, link)), list_elem_of_In.
  - intros Hall [q link] Hin. apply negb_true_iff.
    by apply (Hall q link), list_elem_of_In.
Qed.

(** *** The order of [find_all] *)

Lemma path_prefix_app here q p :
  path_prefix (here ++ q) (here ++ p) = path_prefix q p.
Proof.
  induction here as [|i here IH]; [done |].
  cbn [app path_prefix]. by rewrite Nat.eqb_refl.
Qed.

(** The paths of the matches below a node lead through one of its children. *)
Lemma find_all_children_paths name here i cs p link :
  (p, link) ∈ find_all_children name here i cs ->
  exists j q, p = here ++ (i + j) :: q.
Proof.
  revert i. induction cs as [|c cs IH]; intros i Hin.
  - by apply elem_of_nil in Hin.
  - cbn [find_all_children] in Hin.
    rewrite !elem_of_app in Hin. destruct Hin as [Hin | [Hin | Hin]].
    + destruct (has_name name c); [| by apply elem_of_nil in Hin].
      apply list_elem_of_singleton in Hin. injection Hin as -> ->.
      exists 0, []. by rewrite Nat.add_0_r.
    + destruct (find_all_from_node_at _ _ _ _ _ Hin) as (q & -> & _).
      exists 0, q. by rewrite Nat.add_0_r, <- app_assoc.
    + destruct (IH _ Hin) as (j & q & ->).
      exists (S j), q. by rewrite Nat.add_succ_r.
Qed.

Lemma find_all_from_paths name here e p link :
  (p, link) ∈ find_all_from name here e -> exists j q, p = here ++ j :: q.
Proof.
  destruct e as [s | s | n attrs cs]; intros Hin.
  - by apply elem_of_nil in Hin.
  - by apply elem_of_nil in Hin.
  - rewrite find_all_from_Tag in Hin.
    by apply find_all_children_paths in Hin.
Qed.

Lemma document_order_app l1 l2 :
  document_order (l1 ++ l2) = true
  <-> document_order l1 = true /\ document_order l2 = true
      /\ forall p link, (p, link) ∈ l1 -> outermost p l2 = true.
Proof.
  induction l1 as [|[q l] l1 IH].
  - cbn. split; [| tauto]. intros Hord. repeat split; [done |].
    intros p link Hin. by apply elem_of_nil in Hin.
  - cbn [app document_order fst].
    rewrite !andb_true_iff, outermost_app, andb_true_iff, IH. split.
    + intros [[Hq1 Hq2] (H1 & H2 & Hcross)]. repeat split; try done.
      intros p link [[= -> ->] | Hin]%elem_of_cons; [done | by eapply Hcross].
    + intros [[Hq1 H1] (H2 & Hcross)]. repeat split; try done.
      * eapply Hcross. by left.
      * intros p link Hin. eapply Hcross. by right.
Qed.

(** [find_all] lists the matches in document order. *)
Lemma find_all_from_document_order name e :
  forall here, document_order (find_all_from name here e) = true.
Proof.
  induction e as [s | s | n attrs cs IHcs] using PageElement_forall_ind;
    intros here; [done.. |].
  rewrite find_all_from_Tag. generalize 0.
  induction cs as [|c cs IH]; intros i; [done |].
  apply Forall_cons in IHcs as [IHc IHcs].
  cbn [find_all_children].
  assert (forall p link,
            (p, link) ∈ find_all_children name here (S i) cs ->
            forall q, path_prefix p (here ++ i :: q) = false) as Hsiblings.
  { intros p link Hin q.
    destruct (find_all_children_paths _ _ _ _ _ _ Hin) as (j & q' & ->).
    rewrite path_prefix_app. cbn [path_prefix].
    by replace (S i + j =? i)%nat with false by (symmetry; apply Nat.eqb_neq; lia). }
  assert (forall p link,
            (p, link) ∈ find_all_from name (here ++ [i]) c ->
            exists j q, p = here ++ i :: j :: q) as Hinside.
  { intros p link Hin.
    destruct (find_all_from_paths _ _ _ _ _ Hin) as (j & q & ->).
    exists j, q. by rewrite <- app_assoc. }
  apply document_order_app. split; [by destruct (has_name name c) |]. split.
  - apply document_order_app. split; [apply IHc |]. split; [by apply IH |].
    intros p link Hin. destruct (Hinside _ _ Hin) as (j & q & ->).
    apply outermost_true. intros p' link' Hin'. by eapply Hsiblings.
  - intros p link Hin.
    destruct (has_name name c); [| by apply elem_of_nil in Hin].
    apply list_elem_of_singleton in Hin. injection Hin as -> ->.
    rewrite outermost_app. apply andb_true_iff. split.
    + apply outermost_true. intros p' link' Hin'.
      destruct (Hinside _ _ Hin') as (j & q & ->).
      rewrite path_prefix_app. cbn [path_prefix]. by rewrite Nat.eqb_refl.
    + apply outermost_true. intros p' link' Hin'. by eapply Hsiblings.
Qed.

(** A link is never at or below a link that [find_all] lists after it. *)
Lemma find_all_later_not_above content name pre p link post :
  find_all content name = pre ++ (p, link) :: post -> outermost p post = true.
Proof.
  intros Hlinks.
  pose proof (find_all_from_document_order name content []) as Hord.
  fold (find_all content name) in Hord. rewrite Hlinks in Hord.
  apply document_order_app in Hord as (_ & Hord & _).
  cbn [document_order fst] in Hord. by apply andb_true_iff in Hord as [? _].
Qed.

End TreeFacts.

(** ** The loop of the link resolver *)

Section ResolverFacts.
Context `{Globals}.
Implicit Types (st : store) (links : list (path * PageElement)).

Lemma for_each_app {A} (xs ys : list A) (body : A -> M unit) st :
  for_each (xs ++ ys) body st =
  match for_each xs body st with
  | (st', Returned _) => for_each ys body st'
  | (st', Raised e) => (st', Raised e)
  end.
Proof.
  revert st. induction xs as [|x xs IH]; intros st; [done |].
  cbn [app for_each]. unfold bind.
  destruct (body x st) as [st' [[]|e]]; [apply IH | done].
Qed.

Lemma convert_links_app links1 links2 st :
  convert_links (links1 ++ links2) st =
  match convert_links links1 st with
  | (st', Returned _) => convert_links links2 st'
  | (st', Raised e) => (st', Raised e)
  end.
Proof. apply for_each_app. Qed.

Lemma convert_links_cons link links st :
  convert_links (link :: links) st =
  match convert_link link st with
  | (st', Returned _) => convert_links links st'
  | (st', Raised e) => (st', Raised e)
  end.
Proof. done. Qed.

(** The loop body in terms of [resolve]. *)
Lemma convert_link_eq p link st :
  convert_link (p, link) st =
  match get link "href" with
  | None => (st, Raised TypeError)
  | Some url =>
      match resolve url st with
      | (st', Returned target) =>
          (Store
             (replace_with p
                ("[" +:+ format (element_string link) +:+ "](" +:+ target +:+ ")")
                (tree st'))
             (remote_content st'),
           Returned tt)
      | (st', Raised e) => (st', Raised e)
      end
  end.
Proof.
  unfold convert_link. cbn [fst snd].
  destruct (get link "href") as [url|]; [| done].
  unfold bind. by destruct (resolve url st) as [st' [target|e]].
Qed.

(** The whole function in terms of its loop. *)
Lemma convert_urls_to_markdown_eq content :
  convert_urls_to_markdown content =
  match convert_links (find_all content "a") (Store content ∅) with
  | (st, Returned _) =>
      (st, Returned (if decide (remote_content st = ∅) then None
                     else Some (remote_content st)))
  | (st, Raised e) => (st, Raised e)
  end.
Proof.
  unfold convert_urls_to_markdown, bind.
  destruct (convert_links _ _) as [st [[]|e]]; [| done].
  unfold get_remote_content. by destruct (decide _).
Qed.

(** *** The branches of [resolve] *)

Lemma resolve_challenge url number st :
  CHALLENGE_URL_REGEX url = Some number ->
  resolve url st = (st, Returned (CHALLENGE_URL_BASE +:+ number)).
Proof. intros Hm. unfold resolve. by rewrite Hm. Qed.

(** The resource branch ends at its first statement. *)
Lemma resolve_resource url filename st :
  RESOURCE_URL_REGEX url = Some filename ->
  resolve url st
  = (st, Raised (NameError "name 'sanitise_file_name' is not defined")).
Proof.
  intros Hm. unfold resolve.
  by rewrite (resource_not_challenge _ _ Hm), Hm.
Qed.

Lemma resolve_about url st :
  classify url = AboutReference ->
  resolve url st = (st, Returned (URL_BASE +:+ url)).
Proof.
  unfold classify, resolve.
  by destruct (CHALLENGE_URL_REGEX url), (RESOURCE_URL_REGEX url),
    (ABOUT_URL_REGEX url).
Qed.

Lemma resolve_unknown url st :
  CHALLENGE_URL_REGEX url = None ->
  RESOURCE_URL_REGEX url = None ->
  ABOUT_URL_REGEX url = None ->
  resolve url st =
  (st, Raised (NotImplementedError
                 ("A URL was found to an unknown resource type: " +:+ url))).
Proof. intros H1 H2 H3. unfold resolve. by rewrite H1, H2, H3. Qed.

(** [resolve] leaves the store alone. It raises, though never [KeyError],
    or it returns, which it does for no resource reference. *)
Lemma resolve_cases url st :
  (exists e, resolve url st = (st, Raised e) /\ forall msg, e <> KeyError msg)
  \/ (exists target,
        resolve url st = (st, Returned target)
        /\ classify url <> ResourceReference).
Proof.
  unfold resolve, classify.
  destruct (CHALLENGE_URL_REGEX url) as [number|].
  { right. eexists. by split. }
  destruct (RESOURCE_URL_REGEX url) as [filename|].
  { left. eexists. by split. }
  destruct (ABOUT_URL_REGEX url) as [word|].
  - right. eexists. by split.
  - left. eexists. by split.
Qed.

(** The loop body raises and leaves the store alone, or it exchanges the
    link for a text node and leaves the dictionary alone. *)
Lemma convert_link_cases p link st :
  (exists e, convert_link (p, link) st = (st, Raised e)
             /\ forall msg, e <> KeyError msg)
  \/ (exists md,
        convert_link (p, link) st =
          (Store (replace_with p md (tree st)) (remote_content st), Returned tt)
        /\ link_class link <> Some ResourceReference).
Proof.
  rewrite convert_link_eq. unfold link_class.
  destruct (get link "href") as [url|]; [| left; eexists; by split].
  destruct (resolve_cases url st) as [(e & -> & He) | (target & -> & Hc)].
  - left. by eexists.
  - right. eexists. split; [done |]. cbn. congruence.
Qed.

(** *** What the loop preserves *)

(** The dictionary is never written to. *)
Lemma convert_links_remote_content links st :
  remote_content (convert_links links st).1 = remote_content st.
Proof.
  revert st. induction links as [|[p link] links IH]; intros st; [done |].
  rewrite convert_links_cons.
  destruct (convert_link_cases p link st) as [(e & -> & _) | (md & -> & _)];
    [done |].
  by rewrite IH.
Qed.

(** The loop never raises [KeyError]. *)
Lemma convert_links_no_KeyError links st st' e :
  convert_links links st = (st', Raised e) -> forall msg, e <> KeyError msg.
Proof.
  revert st. induction links as [|[p link] links IH]; intros st Hrun; [done |].
  rewrite convert_links_cons in Hrun.
  destruct (convert_link_cases p link st) as [(e' & He' & Hno) | (md & Hmd & _)].
  - rewrite He' in Hrun. by injection Hrun as _ <-.
  - rewrite Hmd in Hrun. by eapply IH.
Qed.

(** A loop that runs through has met no resource reference. *)
Lemma convert_links_returned links st st' :
  convert_links links st = (st', Returned tt) ->
  forall p link, (p, link) ∈ links -> link_class link <> Some ResourceReference.
Proof.
  revert st. induction links as [|[q l] links IH]; intros st Hrun p link Hin.
  - by apply elem_of_nil in Hin.
  - rewrite convert_links_cons in Hrun.
    destruct (convert_link_cases q l st) as [(e & He & _) | (md & Hmd & Hc)];
      [by rewrite He in Hrun |].
    rewrite Hmd in Hrun.
    apply elem_of_cons in Hin as [[= -> ->] | Hin]; [done | by eapply IH].
Qed.

(** A path that no link of the list sits at or above still leads to a
    node ... *)
Lemma convert_links_node_is_Some links st p :
  outermost p links = true ->
  is_Some (node_at p (tree st)) ->
  is_Some (node_at p (tree (convert_links links st).1)).
Proof.
  revert st. induction links as [|[q link] links IH]; intros st Hout Hp; [done |].
  cbn [outermost forallb fst] in Hout. apply andb_true_iff in Hout as [Hq Hout].
  apply negb_true_iff in Hq.
  rewrite convert_links_cons.
  destruct (convert_link_cases q link st) as [(e & -> & _) | (md & -> & _)];
    [done |].
  apply IH; [done |]. by apply node_at_replace_at_is_Some.
Qed.

(** ... and a text node found there stays. *)
Lemma convert_links_node_text links st p s :
  outermost p links = true ->
  node_at p (tree st) = Some (NavigableString s) ->
  node_at p (tree (convert_links links st).1) = Some (NavigableString s).
Proof.
  revert st. induction links as [|[q link] links IH]; intros st Hout Hp; [done |].
  cbn [outermost forallb fst] in Hout. apply andb_true_iff in Hout as [Hq Hout].
  apply negb_true_iff in Hq.
  rewrite convert_links_cons.
  destruct (convert_link_cases q link st) as [(e & -> & _) | (md & -> & _)];
    [done |].
  apply IH; [done |]. by apply node_at_replace_at_text.
Qed.

(** Links that are neither above nor below [p] leave the node at [p] as
    it is. *)
Lemma convert_links_node_apart links st p :
  (forall q link, (q, link) ∈ links ->
     path_prefix q p = false /\ path_prefix p q = false) ->
  node_at p (tree (convert_links links st).1) = node_at p (tree st).
Proof.
  revert st. induction links as [|[q link] links IH]; intros st Hapart; [done |].
  destruct (Hapart q link) as [Hqp Hpq]; [by left |].
  assert (forall q' link', (q', link') ∈ links ->
            path_prefix q' p = false /\ path_prefix p q' = false) as Hrest.
  { intros q' link' Hin. apply (Hapart q' link'). by right. }
  rewrite convert_links_cons.
  destruct (convert_link_cases q link st) as [(e & -> & _) | (md & -> & _)];
    [done |].
  rewrite IH by done. by apply node_at_replace_at_apart.
Qed.

(** The store in which the whole function ends is the one its loop ends in. *)
Lemma convert_urls_to_markdown_store content :
  (convert_urls_to_markdown content).1
  = (convert_links (find_all content "a") (Store content ∅)).1.
Proof.
  rewrite convert_urls_to_markdown_eq.
  by destruct (convert_links _ _) as [st [[]|e]].
Qed.

(** The dictionary is empty when the function ends, whatever the outcome. *)
Lemma convert_urls_to_markdown_remote_content content :
  remote_content (convert_urls_to_markdown content).1 = ∅.
Proof.
  by rewrite convert_urls_to_markdown_store, convert_links_remote_content.
Qed.

End ResolverFacts.

(** ** The link resolver, link by link *)

Section LinkTheorems.
Context `{Globals}.
Implicit Types (st : store) (links pre post : list (path * PageElement)).

(** A link the loop reaches and resolves is exchanged for its Markdown
    text, and the dictionary stays as it is; if the link does not lie
    inside an earlier link, the text is what the tree holds at its place
    when the function ends. *)
Lemma link_rewritten content pre p link post st url st1 target :
  find_all content "a" = pre ++ (p, link) :: post ->
  convert_links pre (Store content ∅) = (st, Returned tt) ->
  get link "href" = Some url ->
  resolve url st = (st1, Returned target) ->
  let md := "[" +:+ format (element_string link) +:+ "](" +:+ target +:+ ")" in
  let final := (convert_urls_to_markdown content).1 in
  convert_link (p, link) st
    = (Store (replace_with p md (tree st)) (remote_content st), Returned tt)
  /\ (outermost p pre = true ->
      node_at p (tree final) = Some (NavigableString md)).
Proof.
  intros Hlinks Hpre Hhref Hresolve md final.
  assert (st1 = st) as ->.
  { destruct (resolve_cases url st) as [(e & He & _) | (t & He & _)];
      rewrite He in Hresolve; by injection Hresolve as <-. }
  assert (convert_link (p, link) st
          = (Store (replace_with p md (tree st)) (remote_content st),
             Returned tt)) as Hstep.
  { by rewrite convert_link_eq, Hhref, Hresolve. }
  assert (final
          = (convert_links post
               (Store (replace_with p md (tree st)) (remote_content st))).1)
    as Hfinal.
  { unfold final. rewrite convert_urls_to_markdown_store, Hlinks.
    rewrite convert_links_app, Hpre, convert_links_cons. by rewrite Hstep. }
  split; [exact Hstep |].
  intros Hout_pre.
  pose proof (find_all_later_not_above _ _ _ _ _ _ Hlinks) as Hout_post.
  rewrite Hfinal. apply convert_links_node_text; [done |]. cbn [tree].
  apply node_at_replace_at_same.
  replace st with (convert_links pre (Store content ∅)).1 by by rewrite Hpre.
  apply convert_links_node_is_Some; [done |]. cbn [tree].
  rewrite (find_all_node_at content "a" p link); [done |].
  rewrite Hlinks. apply elem_of_app. right. by left.
Qed.

(** When the loop reaches a link that does not lie inside an earlier
    link, the tree still holds the element at its place, as [find_all]
    found it: what [convert_link] reads is what the tree holds. *)
Lemma link_in_place_when_reached content pre p link post :
  find_all content "a" = pre ++ (p, link) :: post ->
  outermost p pre = true ->
  node_at p (tree (convert_links pre (Store content ∅)).1) = Some link.
Proof.
  intros Hlinks Hout.
  rewrite convert_links_node_apart.
  - cbn [tree]. apply (find_all_node_at content "a").
    rewrite Hlinks. apply elem_of_app. right. by left.
  - intros q l Hin. split; [by eapply outermost_true |].
    pose proof (find_all_from_document_order "a" content []) as Hord.
    fold (find_all content "a") in Hord. rewrite Hlinks in Hord.
    apply document_order_app in Hord as (_ & _ & Hcross).
    specialize (Hcross q l Hin). cbn [outermost forallb fst] in Hcross.
    apply andb_true_iff in Hcross as [Hpq _]. by apply negb_true_iff in Hpq.
Qed.

End LinkTheorems.

(** ** The claims about the link resolver *)

Section ResolverClaims.
Context `{Globals}.
Implicit Types (st : store) (pre post : list (path * PageElement)).

(** C1. The code does not do what the claim says. When the loop reaches a
    link whose [href] matches the resource pattern, the first statement of
    the resource branch looks up [sanitise_file_name], a name the module
    does not have, and the function raises [NameError]. It ends in the
    store it had when it reached the link: the dictionary is empty, and
    unless the link lies inside an earlier link, the tree still holds the
    link element in its place, so the target was not rewritten and no
    entry was recorded. *)
Theorem resource_link_raises_NameError
    content pre p link post st url filename :
  find_all content "a" = pre ++ (p, link) :: post ->
  convert_links pre (Store content ∅) = (st, Returned tt) ->
  get link "href" = Some url ->
  RESOURCE_URL_REGEX url = Some filename ->
  convert_urls_to_markdown content
    = (st, Raised (NameError "name 'sanitise_file_name' is not defined"))
  /\ remote_content st = ∅
  /\ (outermost p pre = true -> node_at p (tree st) = Some link).
Proof.
  intros Hlinks Hpre Hhref Hm.
  assert (st = (convert_links pre (Store content ∅)).1) as Hst
    by by rewrite Hpre.
  split; [| split].
  - rewrite convert_urls_to_markdown_eq, Hlinks, convert_links_app, Hpre.
    rewrite convert_links_cons, convert_link_eq, Hhref.
    by rewrite (resolve_resource _ _ _ Hm).
  - by rewrite Hst, convert_links_remote_content.
  - intros Hout. rewrite Hst. by eapply link_in_place_when_reached.
Qed.

(** C2. The code does not do what the claim says. For a block with two
    resource links, whatever their file names, the function raises, but
    never the naming-collision error: the loop ends at the latest at the
    first resource link it reaches, where [NameError] is raised before the
    collision test of lines 124 and 125, and the dictionary the test would
    look into has no entry. *)
Theorem two_resource_links_raise_no_KeyError content p1 link1 p2 link2 :
  (p1, link1) ∈ find_all content "a" ->
  (p2, link2) ∈ find_all content "a" ->
  p1 <> p2 ->
  link_class link1 = Some ResourceReference ->
  link_class link2 = Some ResourceReference ->
  exists st e,
    convert_urls_to_markdown content = (st, Raised e)
    /\ (forall msg, e <> KeyError msg)
    /\ remote_content st = ∅.
Proof.
  intros Hin1 Hin2 _ Hc1 Hc2.
  pose proof (convert_urls_to_markdown_remote_content content) as Hempty.
  rewrite convert_urls_to_markdown_eq in Hempty |- *.
  destruct (convert_links (find_all content "a") (Store content ∅))
    as [st [[]|e]] eqn:Hrun.
  - by destruct (convert_links_returned _ _ _ Hrun _ _ Hin1).
  - exists st, e. split; [done |]. split; [| done].
    by eapply convert_links_no_KeyError.
Qed.

(** C3. When the loop reaches a link whose [href] matches none of the
    three patterns, the function raises the unrecognised-link error, whose
    message ends in the [href]; it ends in the store it had when it reached
    the link, so this link and the links after it are not processed. *)
Theorem unknown_link_raises_NotImplementedError
    content pre p link post st url :
  find_all content "a" = pre ++ (p, link) :: post ->
  convert_links pre (Store content ∅) = (st, Returned tt) ->
  get link "href" = Some url ->
  CHALLENGE_URL_REGEX url = None ->
  RESOURCE_URL_REGEX url = None ->
  ABOUT_URL_REGEX url = None ->
  convert_urls_to_markdown content
    = (st, Raised (NotImplementedError
                     ("A URL was found to an unknown resource type: " +:+ url))).
Proof.
  intros Hlinks Hpre Hhref Hc Hr Ha.
  rewrite convert_urls_to_markdown_eq, Hlinks, convert_links_app, Hpre.
  rewrite convert_links_cons, convert_link_eq, Hhref.
  by rewrite (resolve_unknown _ _ Hc Hr Ha).
Qed.

(** C4. A link whose [href] begins with [problem=] and a run of one or
    more decimal digits, reached by the loop, is exchanged for a Markdown
    link whose target is the challenge base address followed by exactly
    that run of digits, character for character; the dictionary is left as
    it was. Unless the link lies inside an earlier link, the Markdown link
    is what the tree holds in its place when the function ends. *)
Theorem challenge_link_rewritten
    content pre p link post st digits rest :
  find_all content "a" = pre ++ (p, link) :: post ->
  convert_links pre (Store content ∅) = (st, Returned tt) ->
  get link "href" = Some ("problem=" +:+ digits +:+ rest) ->
  digits <> EmptyString ->
  all_chars is_digit digits = true ->
  starts_in is_digit rest = false ->
  let md := "[" +:+ format (element_string link) +:+ "]("
            +:+ (CHALLENGE_URL_BASE +:+ digits) +:+ ")" in
  convert_link (p, link) st
    = (Store (replace_with p md (tree st)) (remote_content st), Returned tt)
  /\ (outermost p pre = true ->
      node_at p (tree (convert_urls_to_markdown content).1)
      = Some (NavigableString md)).
Proof.
  intros Hlinks Hpre Hhref Hne Hall Hrest md.
  pose proof (challenge_match_digits _ _ Hne Hall Hrest) as Hm.
  pose proof (resolve_challenge _ _ st Hm) as Hresolve.
  by destruct (link_rewritten _ _ _ _ _ _ _ _ _ Hlinks Hpre Hhref Hresolve)
    as (Hstep & Htree).
Qed.

(** C5. A link whose [href] begins with [about=] and a word character,
    reached by the loop, is exchanged for a Markdown link whose target is
    the remote base address followed by the original [href]; the
    dictionary is left as it was. Unless the link lies inside an earlier
    link, the Markdown link is what the tree holds in its place when the
    function ends. *)
Theorem about_link_rewritten
    content pre p link post st c rest :
  find_all content "a" = pre ++ (p, link) :: post ->
  convert_links pre (Store content ∅) = (st, Returned tt) ->
  get link "href" = Some ("about=" +:+ String c rest) ->
  is_word c = true ->
  let md := "[" +:+ format (element_string link) +:+ "]("
            +:+ (URL_BASE +:+ ("about=" +:+ String c rest)) +:+ ")" in
  convert_link (p, link) st
    = (Store (replace_with p md (tree st)) (remote_content st), Returned tt)
  /\ (outermost p pre = true ->
      node_at p (tree (convert_urls_to_markdown content).1)
      = Some (NavigableString md)).
Proof.
  intros Hlinks Hpre Hhref Hc md.
  pose proof (resolve_about _ st (classify_about c rest Hc)) as Hresolve.
  by destruct (link_rewritten _ _ _ _ _ _ _ _ _ Hlinks Hpre Hhref Hresolve)
    as (Hstep & Htree).
Qed.


(** C10. A link with no child or with several, which the loop reaches and
    processes without an exception, is exchanged for a Markdown link whose
    display text is the four characters [None]. Unless the link lies
    inside an earlier link, the Markdown link is what the tree holds in its
    place when the function ends. *)
Theorem link_without_single_child_shows_None
    content pre p name attrs cs post st st' :
  find_all content "a" = pre ++ (p, Tag name attrs cs) :: post ->
  convert_links pre (Store content ∅) = (st, Returned tt) ->
  length cs <> 1 ->
  convert_link (p, Tag name attrs cs) st = (st', Returned tt) ->
  exists target,
    let md := "[" +:+ "None" +:+ "](" +:+ target +:+ ")" in
    tree st' = replace_with p md (tree st)
    /\ (outermost p pre = true ->
        node_at p (tree (convert_urls_to_markdown content).1)
        = Some (NavigableString md)).
Proof.
  intros Hlinks Hpre Hlen Hstep'.
  assert (element_string (Tag name attrs cs) = None) as Hstring.
  { by destruct cs as [|c [|c' cs]]. }
  pose proof Hstep' as Hstep.
  rewrite convert_link_eq in Hstep.
  destruct (get (Tag name attrs cs) "href") as [url|] eqn:Hhref; [| done].
  destruct (resolve url st) as [st1 [target|e]] eqn:Hresolve; [| done].
  destruct (link_rewritten _ _ _ _ _ _ _ _ _ Hlinks Hpre Hhref Hresolve)
    as (Hstep1 & Htree).
  rewrite Hstring in Hstep1, Htree. cbn [format] in Hstep1, Htree.
  exists target. split; [| exact Htree].
  rewrite Hstep' in Hstep1. by injection Hstep1 as ->.
Qed.

End ResolverClaims.

(** ** The text sanitiser *)

Section SanitiserFacts.

Lemma replace_char_line_breaks (s : string) :
  replace_char LF hard_break s = Spec.line_breaks s.
Proof.
  unfold Spec.line_breaks. induction s as [|c s IH]; [done |].
  cbn [replace_char list_ascii_of_string]. rewrite IH.
  change (list_ascii_of_string (String c s)) with (c :: list_ascii_of_string s).
  rewrite bind_cons. by destruct (Ascii.eqb c LF).
Qed.

(** A match of the operator-name pattern is not empty. *)
Lemma operatorname_match_shorter s A B rest :
  operatorname_match s = Some (A, B, rest) ->
  String.length rest < String.length s.
Proof.
  unfold operatorname_match, plus_lazy. intros Hm.
  apply lit_Some in Hm as (s1 & -> & Hm).
  apply plus_lazy_from_shorter in Hm as (x & s2 & Hm & Hlen1).
  apply lit_Some in Hm as (s3 & -> & Hm).
  apply plus_lazy_from_shorter in Hm as (y & s4 & Hm & Hlen2).
  apply lit_Some in Hm as (s5 & -> & Hm). injection Hm as _ _ <-.
  rewrite !length_append in *. cbn [String.length] in *. lia.
Qed.

(** Any two amounts of fuel that cover the subject give the same result. *)
Lemma operatorname_sub_fuel_irrelevant fuel1 fuel2 s :
  String.length s <= fuel1 ->
  String.length s <= fuel2 ->
  operatorname_sub_fuel fuel1 s = operatorname_sub_fuel fuel2 s.
Proof.
  revert fuel2 s. induction fuel1 as [|fuel1 IH]; intros fuel2 s Hlen1 Hlen2.
  - destruct s; [| cbn in Hlen1; lia]. by destruct fuel2.
  - destruct fuel2 as [|fuel2].
    { destruct s; [done | cbn in Hlen2; lia]. }
    cbn [operatorname_sub_fuel].
    destruct (operatorname_match s) as [[[A B] rest]|] eqn:Hm.
    + apply operatorname_match_shorter in Hm.
      by rewrite (IH fuel2) by lia.
    + destruct s as [|c s]; [done |]. cbn [String.length] in *.
      by rewrite (IH fuel2) by lia.
Qed.

Lemma operatorname_sub_fuel_enough fuel s :
  String.length s <= fuel -> operatorname_sub_fuel fuel s = operatorname_sub s.
Proof. intros Hlen. by apply operatorname_sub_fuel_irrelevant. Qed.

Lemma operatorname_sub_match s A B rest :
  operatorname_match s = Some (A, B, rest) ->
  operatorname_sub s = operatorname_replacement A B +:+ operatorname_sub rest.
Proof.
  intros Hm. pose proof (operatorname_match_shorter _ _ _ _ Hm) as Hlen.
  unfold operatorname_sub at 1. destruct (String.length s) as [|n] eqn:Hs; [lia |].
  cbn [operatorname_sub_fuel]. rewrite Hm.
  by rewrite operatorname_sub_fuel_enough by lia.
Qed.

Lemma operatorname_sub_no_match c s :
  operatorname_match (String c s) = None ->
  operatorname_sub (String c s) = String c (operatorname_sub s).
Proof.
  intros Hm. unfold operatorname_sub at 1.
  cbn [String.length operatorname_sub_fuel]. by rewrite Hm.
Qed.

(** The pattern matches where an occurrence with lazy spans begins. *)
Lemma operatorname_match_occurrence A B rest :
  Spec.lazy_span "}" A = true ->
  Spec.lazy_span "=" B = true ->
  operatorname_match ("\operatorname{" +:+ A +:+ "}" +:+ B +:+ "=" +:+ rest)
  = Some (A, B, rest).
Proof.
  intros HA HB. unfold operatorname_match, plus_lazy. rewrite lit_append.
  destruct A as [|a A]; [done |]. destruct B as [|b B]; [done |].
  cbn [Spec.lazy_span] in HA, HB.
  apply andb_true_iff in HA as [HA HA3]. apply andb_true_iff in HA as [HA1 HA2].
  apply andb_true_iff in HB as [HB HB3]. apply andb_true_iff in HB as [HB1 HB2].
  apply negb_true_iff in HA3, HB3.
  change ("}" +:+ String b B +:+ "=" +:+ rest)
    with (String "}" (String b B +:+ String "=" rest)).
  apply plus_lazy_from_stop; [done.. |].
  by apply (plus_lazy_from_stop is_dot "="
              (fun y rest => Some (String a A, y, rest))).
Qed.

End SanitiserFacts.

Section OperatornameFacts.

Lemma startswith_append (l s : string) : startswith l (l +:+ s) = true.
Proof.
  induction l as [|a l IH]; cbn; [done |].
  by rewrite ascii_eqb_refl.
Qed.

Lemma startswith_shorter (l l' s : string) :
  startswith (l +:+ l') s = true -> startswith l s = true.
Proof.
  revert s. induction l as [|a l IH]; intros s; [done |].
  cbn [append startswith]. destruct s as [|c s]; [done |].
  intros [Hc Hl]%andb_true_iff. rewrite Hc. by apply IH.
Qed.

(** A text that does not contain a literal does not contain a longer one. *)
Lemma contains_longer (l l' s : string) :
  contains l s = false -> contains (l +:+ l') s = false.
Proof.
  induction s as [|c s IH]; cbn [contains].
  - intros [Hl _]%orb_false_iff. rewrite orb_false_r.
    destruct (startswith (l +:+ l') EmptyString) eqn:Hs; [| done].
    apply startswith_shorter in Hs. by rewrite Hs in Hl.
  - intros [Hl Hrest]%orb_false_iff. rewrite (IH Hrest), orb_false_r.
    destruct (startswith (l +:+ l') (String c s)) eqn:Hs; [| done].
    apply startswith_shorter in Hs. by rewrite Hs in Hl.
Qed.

(** A text without the literal is left as it is. *)
Lemma operatorname_sub_free (s : string) :
  contains "\operatorname{" s = false -> operatorname_sub s = s.
Proof.
  induction s as [|c s IH]; intros Hfree; [done |].
  cbn [contains] in Hfree. apply orb_false_iff in Hfree as [Hprefix Hfree].
  rewrite operatorname_sub_no_match; [by rewrite IH |].
  unfold operatorname_match.
  destruct (lit _ _ _) as [r|] eqn:Hm; [| done].
  apply lit_Some in Hm as (s' & Hs & _).
  by rewrite Hs, startswith_append in Hprefix.
Qed.

(** Every match of the pattern is an occurrence with lazy spans: the
    engine never has to extend [A] or [B] beyond the first character that
    can end them. *)
Lemma operatorname_match_spans s A B rest :
  operatorname_match s = Some (A, B, rest) ->
  s = "\operatorname{" +:+ A +:+ "}" +:+ B +:+ "=" +:+ rest
  /\ Spec.lazy_span "}" A = true
  /\ Spec.lazy_span "=" B = true.
Proof.
  unfold operatorname_match, plus_lazy. intros Hm.
  apply lit_Some in Hm as (s1 & -> & Hm).
  apply plus_lazy_from_Some in Hm as (a & x & s2 & -> & HallA & Hm & HminA).
  apply lit_Some in Hm as (s3 & -> & Hm).
  apply plus_lazy_from_Some in Hm as (b & y & s4 & -> & HallB & Hm & HminB).
  apply lit_Some in Hm as (s5 & -> & Hm). injection Hm as <- <- <-.
  cbn [append] in *. split; [done |].
  cbn [all_chars] in HallA, HallB.
  apply andb_true_iff in HallA as [Ha Hx]. apply andb_true_iff in HallB as [Hb Hy].
  cbn [Spec.lazy_span]. rewrite Ha, Hx, Hb, Hy. cbn [andb]. split.
  - apply negb_true_iff. destruct (mem_char "}" x) eqn:Hin; [| done]. exfalso.
    apply mem_char_split in Hin as (x1 & x2 & ->).
    specialize (HminA x1 "}"%char x2 eq_refl).
    cbn [append lit] in HminA.
    rewrite all_chars_append in Hx. apply andb_true_iff in Hx as [_ Hx2].
    cbn [all_chars] in Hx2. apply andb_true_iff in Hx2 as [_ Hx2].
    assert (all_chars is_dot (x2 +:+ String "}" (String b y)) = true) as Hall.
    { rewrite all_chars_append, Hx2. cbn [all_chars]. by rewrite Hb, Hy. }
    rewrite ascii_eqb_refl in HminA.
    match type of HminA with
    | ?m = None =>
        assert (is_Some m) as Hfound;
          [| rewrite HminA in Hfound; by destruct Hfound]
    end.
    replace (x2 +:+ String "}" (String b (y +:+ String "=" s5)))
      with ((x2 +:+ String "}" (String b y)) +:+ String "=" s5)
      by by rewrite append_assoc.
    destruct (x2 +:+ String "}" (String b y)) as [|c u] eqn:Hu.
    { by destruct x2. }
    by apply (plus_lazy_from_finds is_dot "="
                (fun y rest => (String a x1, y, rest))).
  - apply negb_true_iff. destruct (mem_char "=" y) eqn:Hin; [| done]. exfalso.
    apply mem_char_split in Hin as (y1 & y2 & ->).
    specialize (HminB y1 "="%char y2 eq_refl).
    cbn [append lit] in HminB. by rewrite ascii_eqb_refl in HminB.
Qed.

(** *** The scan of [re.sub] *)

(** What [begins_no_match] decides: no occurrence with lazy spans begins
    at a position of [before]. *)
Lemma begins_no_match_iff (before tail : string) :
  Spec.begins_no_match before tail = true
  <-> forall b1 c b2 A B rest,
        before = b1 +:+ String c b2 ->
        String c b2 +:+ tail
          = "\operatorname{" +:+ A +:+ "}" +:+ B +:+ "=" +:+ rest ->
        Spec.lazy_span "}" A = true ->
        Spec.lazy_span "=" B = true ->
        False.
Proof.
  induction before as [|d before IH].
  - split; [| done]. intros _ b1 c b2 A B rest Hb. by destruct b1.
  - cbn [Spec.begins_no_match].
    destruct (operatorname_match (String d before +:+ tail))
      as [[[A B] rest]|] eqn:Hm.
    + split; [done |]. intros Hnone. exfalso.
      apply operatorname_match_spans in Hm as (Hs & HA & HB).
      by apply (Hnone EmptyString d before A B rest).
    + rewrite IH. split.
      * intros Hnone b1 c b2 A B rest Hb Hs HA HB.
        destruct b1 as [|e b1]; cbn [append] in Hb; injection Hb as -> ->.
        -- rewrite Hs in Hm.
           by rewrite operatorname_match_occurrence in Hm.
        -- by eapply (Hnone b1 c b2).
      * intros Hnone b1 c b2 A B rest ->.
        by apply (Hnone (String d b1) c b2 A B rest).
Qed.

(** The substitution keeps a text in which no match begins and goes on
    behind it. *)
Lemma operatorname_sub_skip (before rest : string) :
  Spec.begins_no_match before rest = true ->
  operatorname_sub (before +:+ rest) = before +:+ operatorname_sub rest.
Proof.
  induction before as [|c before IH]; intros Hfree; [done |].
  cbn [Spec.begins_no_match] in Hfree.
  destruct (operatorname_match (String c before +:+ rest)) eqn:Hm; [done |].
  change (String c before +:+ rest) with (String c (before +:+ rest)) in *.
  rewrite operatorname_sub_no_match by done. by rewrite IH.
Qed.

Lemma operatorname_sub_nothing (s : string) :
  Spec.begins_no_match s EmptyString = true -> operatorname_sub s = s.
Proof.
  intros Hfree. apply operatorname_sub_skip in Hfree.
  change (operatorname_sub EmptyString) with EmptyString in Hfree.
  by rewrite !append_nil_r in Hfree.
Qed.

(** What the scan makes of a text is what the substitution returns ... *)
Lemma rewritten_operatorname_sub (s out : string) :
  Spec.rewritten s out -> out = operatorname_sub s.
Proof.
  induction 1 as [s Hfree | before A B rest out Hfree HA HB _ ->].
  - by rewrite operatorname_sub_nothing.
  - rewrite operatorname_sub_skip by done.
    rewrite (operatorname_sub_match
               ("\operatorname{" +:+ A +:+ "}" +:+ B +:+ "=" +:+ rest) A B rest)
      by by apply operatorname_match_occurrence.
    unfold operatorname_replacement. by rewrite !append_assoc.
Qed.

(** A character at which the pattern does not match joins the text that
    stays before the leftmost match. *)
Lemma rewritten_cons (c : ascii) (s out : string) :
  operatorname_match (String c s) = None ->
  Spec.rewritten s out ->
  Spec.rewritten (String c s) (String c out).
Proof.
  intros Hm Hscan. revert Hm.
  destruct Hscan as [s Hfree | before A B rest out Hfree HA HB Hrest];
    intros Hm.
  - apply Spec.rewritten_nothing. cbn [Spec.begins_no_match append].
    by rewrite append_nil_r, Hm.
  - apply (Spec.rewritten_leftmost (String c before) A B rest out);
      [| done..].
    cbn [Spec.begins_no_match].
    match goal with
    | |- context [operatorname_match ?x] =>
        replace (operatorname_match x) with (@None (string * string * string))
          by (symmetry; exact Hm)
    end.
    exact Hfree.
Qed.

(** ... and the substitution returns what the scan makes of the text. *)
Lemma operatorname_sub_rewritten (s : string) :
  Spec.rewritten s (operatorname_sub s).
Proof.
  remember (String.length s) as n eqn:Hn.
  revert s Hn. induction n as [n IH] using lt_wf_ind. intros s ->.
  destruct s as [|c s]; [by apply Spec.rewritten_nothing |].
  destruct (operatorname_match (String c s)) as [[[A B] rest]|] eqn:Hm.
  - rewrite (operatorname_sub_match _ _ _ _ Hm).
    pose proof (operatorname_match_shorter _ _ _ _ Hm) as Hlen.
    apply operatorname_match_spans in Hm as (-> & HA & HB).
    unfold operatorname_replacement. rewrite !append_assoc.
    apply (Spec.rewritten_leftmost EmptyString A B rest); [done.. |].
    by apply (IH (String.length rest)).
  - rewrite operatorname_sub_no_match by done.
    apply rewritten_cons; [done |].
    apply (IH (String.length s)); [cbn; lia | done].
Qed.

(** With the workaround the result is the substitution in the text with
    hard line breaks, also when the test for the macro name fails: then
    there is nothing to substitute. *)
Lemma sanitise_tag_text_workaround (description : PageElement) :
  sanitise_tag_text description true
  = operatorname_sub (replace_char LF hard_break (text description)).
Proof.
  unfold sanitise_tag_text. cbn [andb].
  destruct (contains "\operatorname" _) eqn:Hmacro; [done |].
  symmetry. apply operatorname_sub_free.
  by apply (contains_longer "\operatorname" "{").
Qed.

End OperatornameFacts.

(** ** The claims about the sanitisers *)

Section SanitiserClaims.

Lemma sanitise_file_name_safe (x : string) :
  all_chars (fun c => negb (Sanitiser.unsafe c)) (Sanitiser.sanitise_file_name x)
  = true.
Proof.
  induction x as [|c x IH]; [done |]. cbn [Sanitiser.sanitise_file_name].
  destruct (Sanitiser.unsafe c) eqn:Hc; [done |].
  cbn [all_chars]. by rewrite Hc, IH.
Qed.

Lemma sanitise_file_name_of_safe (x : string) :
  all_chars (fun c => negb (Sanitiser.unsafe c)) x = true ->
  Sanitiser.sanitise_file_name x = x.
Proof.
  induction x as [|c x IH]; [done |]. cbn [all_chars Sanitiser.sanitise_file_name].
  intros [Hc Hx]%andb_true_iff. apply negb_true_iff in Hc.
  by rewrite Hc, IH.
Qed.

(** C7. Sanitising a file name twice gives what sanitising it once
    gives, and equal names have equal sanitised names. *)
Theorem sanitise_file_name_idempotent :
  (forall x, Sanitiser.sanitise_file_name (Sanitiser.sanitise_file_name x)
             = Sanitiser.sanitise_file_name x)
  /\ (forall x y, x = y ->
        Sanitiser.sanitise_file_name x = Sanitiser.sanitise_file_name y).
Proof.
  split.
  - intros x. apply sanitise_file_name_of_safe, sanitise_file_name_safe.
  - by intros x y ->.
Qed.

(** C8. Without the workaround the result is the text of the block with
    every line feed exchanged for two spaces and a line feed, and nothing
    else changed, whether or not the text names an operator. *)
Theorem sanitise_tag_text_line_breaks_only :
  (forall description,
     sanitise_tag_text description false = Spec.line_breaks (text description))
  /\ sanitise_tag_text
       (NavigableString ("line one" +:+ String LF "line two")) false
     = "line one  " +:+ String LF "line two"
  /\ sanitise_tag_text (NavigableString "\operatorname{foo}(x)=1") false
     = "\operatorname{foo}(x)=1".
Proof.
  split; [| by split].
  intros description. unfold sanitise_tag_text. cbn [andb].
  apply replace_char_line_breaks.
Qed.

(** C9 (corrected). With the workaround, the result is what a scan from
    left to right without overlap makes of the text with hard line breaks:
    the leftmost match of [\operatorname{A}B=], where [A] ends at the first
    closing brace and [B] at the first equals sign that can end them, is
    exchanged for [\mathop{\text{A}}B=] with [A] and [B] unchanged, the
    text before it stays, and the scan goes on behind its equals sign;
    where nothing matches the text stays. The scan determines the result.
    An occurrence that begins inside a match is not a match of the scan; it
    stays as it is. In particular [\operatorname{foo}(x)=] becomes
    [\mathop{\text{foo}}(x)=]. *)
Theorem sanitise_tag_text_operatorname_scan description :
  let s := replace_char LF hard_break (text description) in
  Spec.rewritten s (sanitise_tag_text description true)
  /\ (forall out, Spec.rewritten s out ->
        out = sanitise_tag_text description true)
  /\ sanitise_tag_text (NavigableString "\operatorname{foo}(x)=") true
     = "\mathop{\text{foo}}(x)=".
Proof.
  intros s. rewrite sanitise_tag_text_workaround. fold s.
  split; [apply operatorname_sub_rewritten |].
  split; [apply rewritten_operatorname_sub | reflexivity].
Qed.

End SanitiserClaims.

(** ** The theorems at sample pages *)

Module SampleFacts.
Import Sample.

Example find_all_three_links :
  find_all three_links "a" = [challenge_42; plot; about_puzzle].
Proof. reflexivity. Qed.

(** The page of the three links: the challenge link is rewritten, then
    the resource link makes the function raise, and the about link is not
    reached. *)
Example three_links_converted :
  run three_links =
  (Store
     (Tag "div" []
        [ NavigableString "See ";
          NavigableString "[problem 42](https://projecteuler.net/problem=42)";
          Tag "p" []
            [ anchor "resources/img/plot.png" [NavigableString "the plot"];
              NavigableString " and ";
              anchor "about=puzzle" [] ] ])
     ∅,
   Raised name_error).
Proof. vm_compute. reflexivity. Qed.

(** The page of the two links: two Markdown links and no dictionary. *)
Example two_links_converted :
  run two_links =
  (Store
     (Tag "div" []
        [ NavigableString "See ";
          NavigableString "[problem 42](https://projecteuler.net/problem=42)";
          Tag "p" []
            [ NavigableString " and ";
              NavigableString "[the puzzle](https://projecteuler.net/about=puzzle)";
              NavigableString "." ] ])
     ∅,
   Returned None).
Proof. vm_compute. reflexivity. Qed.

Example find_all_two_plots :
  find_all two_plots "a" = [first_plot; second_plot; after_plots].
Proof. reflexivity. Qed.

(** The first of two resource links ends the function; the tree is as it
    was. *)
Example two_plots_converted :
  run two_plots = (Store two_plots ∅, Raised name_error).
Proof. vm_compute. reflexivity. Qed.

(** A link inside a link is processed too, but the tree only shows the
    text of the outer link, which was read before the inner link was
    replaced and has two children. *)
Example nested_links_converted :
  run nested_links =
  (Store
     (Tag "div" [] [ NavigableString "[None](https://projecteuler.net/problem=1)" ])
     ∅,
   Returned None).
Proof. vm_compute. reflexivity. Qed.

(** The display text of a link that holds nothing but a comment is the
    comment, which is no part of the text of the link. *)
Example comment_link_converted :
  run comment_link =
  (Store
     (Tag "div" []
        [ NavigableString "[not shown](https://projecteuler.net/about=hidden)" ])
     ∅,
   Returned None)
  /\ text comment_link = EmptyString.
Proof. split; [vm_compute |]; reflexivity. Qed.

Example challenge_match_42 : CHALLENGE_URL_REGEX "problem=42" = Some "42".
Proof. reflexivity. Qed.

Example challenge_match_leading_zero :
  CHALLENGE_URL_REGEX "problem=007&x" = Some "007".
Proof. reflexivity. Qed.

Example challenge_match_needs_digit : CHALLENGE_URL_REGEX "problem=x" = None.
Proof. reflexivity. Qed.

Example resource_match_nested :
  RESOURCE_URL_REGEX "resources/img/plot.png" = Some "plot.png".
Proof. reflexivity. Qed.

Example resource_match_project :
  RESOURCE_URL_REGEX "project/images/a/b/c.gif" = Some "c.gif".
Proof. reflexivity. Qed.

Example resource_match_flat : RESOURCE_URL_REGEX "images/p.png" = Some "p.png".
Proof. reflexivity. Qed.

(** The file name keeps a separator when nothing follows the last one. *)
Example resource_match_trailing_separator :
  RESOURCE_URL_REGEX "resources/a/" = Some "a/".
Proof. reflexivity. Qed.

Example resource_match_needs_name : RESOURCE_URL_REGEX "resources/" = None.
Proof. reflexivity. Qed.

Example about_match_puzzle : ABOUT_URL_REGEX "about=puzzle" = Some "puzzle".
Proof. reflexivity. Qed.

Example mailto_unmatched :
  classify "mailto:test@example.com" = Unknown.
Proof. reflexivity. Qed.

Example operatorname_match_foo :
  operatorname_match "\operatorname{foo}(x)=1" = Some ("foo", "(x)", "1").
Proof. reflexivity. Qed.

(** Two occurrences one after the other are both rewritten. *)
Example operatorname_sub_twice :
  operatorname_sub "\operatorname{f}(x)=\operatorname{g}(y)=1"
  = "\mathop{\text{f}}(x)=\mathop{\text{g}}(y)=1".
Proof. reflexivity. Qed.

(** The pattern does not reach over the end of a line. *)
Example operatorname_sub_line_end :
  operatorname_sub ("\operatorname{f}(x)" +:+ String LF "=1")
  = "\operatorname{f}(x)" +:+ String LF "=1".
Proof. reflexivity. Qed.

Lemma resource_link_witness :
  let st := Store
              (replace_with [1]
                 "[problem 42](https://projecteuler.net/problem=42)" three_links)
              ∅ in
  run three_links = (st, Raised name_error)
  /\ remote_content st = ∅
  /\ node_at [2; 0] (tree st) = Some (snd plot).
Proof.
  destruct (@resource_link_raises_NameError project_euler three_links
              [challenge_42] [2; 0] (snd plot) [about_puzzle]
              (Store
                 (replace_with [1]
                    "[problem 42](https://projecteuler.net/problem=42)" three_links)
                 ∅)
              "resources/img/plot.png" "plot.png")
    as (Hrun & Hempty & Hplace).
  - reflexivity.
  - vm_compute. reflexivity.
  - reflexivity.
  - reflexivity.
  - split; [exact Hrun |]. split; [exact Hempty | exact (Hplace eq_refl)].
Defined.

Lemma two_resource_links_witness :
  run two_plots = (Store two_plots ∅, Raised name_error)
  /\ name_error <> KeyError "Multiple resources found with the name plot.png"
  /\ remote_content (run two_plots).1 = ∅.
Proof.
  destruct (@two_resource_links_raise_no_KeyError project_euler two_plots
              [0] (snd first_plot) [1] (snd second_plot))
    as (st & e & Hrun & Hno & Hempty).
  - apply list_elem_of_here.
  - apply list_elem_of_further, list_elem_of_here.
  - discriminate.
  - reflexivity.
  - reflexivity.
  - assert (run two_plots = (Store two_plots ∅, Raised name_error)) as Heval
      by (vm_compute; reflexivity).
    change (run two_plots = (st, Raised e)) in Hrun.
    rewrite Heval in Hrun. injection Hrun as <- <-.
    split; [exact Heval |]. split; [apply Hno |].
    rewrite Heval. exact Hempty.
Defined.

Lemma unknown_link_witness :
  run mail_link
  = (Store
       (replace_with [0] "[seven](https://projecteuler.net/problem=007)" mail_link)
       ∅,
     Raised (NotImplementedError
               "A URL was found to an unknown resource type: mailto:test@example.com")).
Proof.
  apply (@unknown_link_raises_NotImplementedError project_euler mail_link
           [challenge_007] [1] (snd mail) [after_mail]).
  - reflexivity.
  - vm_compute. reflexivity.
  - reflexivity.
  - reflexivity.
  - reflexivity.
  - reflexivity.
Defined.

Lemma challenge_link_witness :
  node_at [0] (tree (run mail_link).1)
  = Some (NavigableString "[seven](https://projecteuler.net/problem=007)").
Proof.
  destruct (@challenge_link_rewritten project_euler mail_link
              [] [0] (snd challenge_007) [mail; after_mail]
              (Store mail_link ∅) "007" EmptyString)
    as (_ & Htree).
  - reflexivity.
  - reflexivity.
  - reflexivity.
  - discriminate.
  - reflexivity.
  - reflexivity.
  - exact (Htree eq_refl).
Defined.

Lemma about_link_witness :
  node_at [2; 1] (tree (run two_links).1)
  = Some (NavigableString "[the puzzle](https://projecteuler.net/about=puzzle)").
Proof.
  destruct (@about_link_rewritten project_euler two_links
              [challenge_42] [2; 1] (snd the_puzzle) []
              (Store
                 (replace_with [1]
                    "[problem 42](https://projecteuler.net/problem=42)" two_links)
                 ∅)
              "p"%char "uzzle")
    as (_ & Htree).
  - reflexivity.
  - vm_compute. reflexivity.
  - reflexivity.
  - reflexivity.
  - exact (Htree eq_refl).
Defined.


Lemma sanitise_file_name_witness :
  Sanitiser.sanitise_file_name (Sanitiser.sanitise_file_name "my plot/1?.png")
    = Sanitiser.sanitise_file_name "my plot/1?.png"
  /\ Sanitiser.sanitise_file_name "my plot/1?.png" = "myplot1.png".
Proof.
  split.
  - exact (proj1 sanitise_file_name_idempotent "my plot/1?.png").
  - exact (proj2 sanitise_file_name_idempotent
             "my plot/1?.png" "my plot/1?.png" eq_refl).
Defined.

(** An occurrence in the span [B] of a match is left as it is: the text
    holds [\operatorname{gcd}(b,c))=] with lazy spans [gcd] and [(b,c))],
    and the result holds it still, not its rewritten form. *)
Lemma nested_operatorname_kept :
  text nested_operators
    = "\operatorname{lcm}(a,"
      +:+ "\operatorname{" +:+ "gcd" +:+ "}" +:+ "(b,c))" +:+ "=" +:+ "1"
  /\ Spec.lazy_span "}" "gcd" = true
  /\ Spec.lazy_span "=" "(b,c))" = true
  /\ contains "\operatorname" (text nested_operators) = true
  /\ sanitise_tag_text nested_operators true
     = "\mathop{\text{lcm}}(a,\operatorname{gcd}(b,c))=1"
  /\ contains "\operatorname{gcd}(b,c))="
       (sanitise_tag_text nested_operators true) = true
  /\ contains "\mathop{\text{gcd}}(b,c))="
       (sanitise_tag_text nested_operators true) = false.
Proof. repeat split; reflexivity. Qed.

(** The block that is not closed on the first line stays, and the
    occurrence on the second line is rewritten. *)
Lemma operatorname_scan_witness :
  sanitise_tag_text operator_text true
  = "Let \operatorname{x  " +:+ String LF "\mathop{\text{foo}}(x)=1".
Proof.
  symmetry.
  apply (proj1 (proj2 (sanitise_tag_text_operatorname_scan operator_text))).
  apply (Spec.rewritten_leftmost
           ("Let \operatorname{x  " +:+ String LF EmptyString)
           "foo" "(x)" "1" "1").
  - reflexivity.
  - reflexivity.
  - reflexivity.
  - apply Spec.rewritten_nothing. reflexivity.
Defined.

Lemma link_without_single_child_witness :
  exists target,
    node_at [0] (tree (run rich_link).1)
    = Some (NavigableString ("[" +:+ "None" +:+ "](" +:+ target +:+ ")")).
Proof.
  destruct (@link_without_single_child_shows_None project_euler rich_link
              [] [0] "a" [("href", "about=fonts")]
              [Tag "b" [] [NavigableString "bold"]; NavigableString " text"] []
              (Store rich_link ∅)
              (Store
                 (replace_with [0] "[None](https://projecteuler.net/about=fonts)"
                    rich_link)
                 ∅))
    as (target & _ & Htree).
  - reflexivity.
  - reflexivity.
  - discriminate.
  - reflexivity.
  - exists target. exact (Htree eq_refl).
Defined.

End SampleFacts.

(** * Further properties of the code *)

(** ** Greedy repetition *)

Section GreedyFacts.
Context {R : Type}.
Implicit Types (k : string -> @matcher R) (p : ascii -> bool).

(** A greedy repetition that fails has tried every run of the class. *)
Lemma plus_greedy_from_None p k acc s :
  plus_greedy_from p k acc s = None ->
  forall d y s', s = String d y +:+ s' ->
    all_chars p (String d y) = true ->
    k (acc +:+ String d y) s' = None.
Proof.
  revert acc. induction s as [|c s IH]; intros acc Hm d y s' Hs Hall; [done |].
  cbn [append] in Hs. injection Hs as -> ->.
  cbn [all_chars] in Hall. apply andb_true_iff in Hall as [Hd Hall].
  cbn [plus_greedy_from] in Hm. rewrite Hd in Hm.
  destruct (plus_greedy_from p k (acc +:+ String d EmptyString) (y +:+ s'))
    eqn:Hrec; [done |].
  destruct y as [|e y]; [exact Hm |].
  rewrite <- append_snoc. by apply (IH _ Hrec e y s').
Qed.

(** What a greedy repetition consumed: a run of the class at which the
    continuation succeeded, after failing at every longer one. *)
Lemma plus_greedy_from_Some p k acc s r :
  plus_greedy_from p k acc s = Some r ->
  exists c x s',
    s = String c x +:+ s'
    /\ all_chars p (String c x) = true
    /\ k (acc +:+ String c x) s' = Some r
    /\ forall d y s'', s' = String d y +:+ s'' ->
         all_chars p (String d y) = true ->
         k (acc +:+ String c x +:+ String d y) s'' = None.
Proof.
  revert acc. induction s as [|c s IH]; intros acc Hm; [done |].
  cbn [plus_greedy_from] in Hm. destruct (p c) eqn:Hc; [| done].
  destruct (plus_greedy_from p k (acc +:+ String c EmptyString) s) eqn:Hrec.
  - injection Hm as ->.
    destruct (IH _ Hrec) as (c' & x & s' & -> & Hall & Hk & Hmax).
    exists c, (String c' x), s'. rewrite append_snoc in Hk.
    repeat split; try done.
    + cbn [all_chars] in *. by rewrite Hc.
    + intros d y s'' Hs' Hdy. specialize (Hmax d y s'' Hs' Hdy).
      by rewrite append_snoc in Hmax.
  - exists c, EmptyString, s. repeat split; try done.
    + cbn. by rewrite Hc.
    + intros d y s'' -> Hdy. rewrite <- append_assoc.
      by apply (plus_greedy_from_None _ _ _ _ Hrec d y s'').
Qed.

End GreedyFacts.

(** The last group of a pattern, [(p+)] with nothing behind it, captures
    exactly the longest run of the class at the start of the subject. *)
Lemma plus_greedy_run_iff (p : ascii -> bool) (s run : string) :
  plus_greedy p (fun x _ => Some x) s = Some run
  <-> run <> EmptyString /\ all_chars p run = true
      /\ exists rest, s = run +:+ rest /\ starts_in p rest = false.
Proof.
  unfold plus_greedy. split.
  - intros Hm.
    apply plus_greedy_from_Some in Hm as (c & x & s' & -> & Hall & Hk & Hmax).
    cbn [append] in Hk. injection Hk as <-. repeat split; try done.
    exists s'. split; [done |].
    destruct s' as [|d s'']; [done |]. cbn [starts_in].
    destruct (p d) eqn:Hd; [| done].
    specialize (Hmax d EmptyString s'' eq_refl). cbn in Hmax.
    rewrite Hd in Hmax. by specialize (Hmax eq_refl).
  - intros (Hne & Hall & rest & -> & Hrest).
    by rewrite plus_greedy_from_run.
Qed.

(** ** The link patterns *)

Section PatternProperties.

Lemma about_match_prefix (url word : string) :
  ABOUT_URL_REGEX url = Some word -> exists rest, url = "about=" +:+ rest.
Proof.
  unfold ABOUT_URL_REGEX. intros Hm.
  apply lit_Some in Hm as (rest & -> & _). by exists rest.
Qed.

(** X1. No [href] matches two of the three patterns, so the order of the
    if/elif chain decides nothing: a match of one pattern excludes a match
    of each of the other two. *)
Theorem link_patterns_exclusive (url : string) :
  (is_Some (CHALLENGE_URL_REGEX url) ->
   RESOURCE_URL_REGEX url = None /\ ABOUT_URL_REGEX url = None)
  /\ (is_Some (RESOURCE_URL_REGEX url) ->
      CHALLENGE_URL_REGEX url = None /\ ABOUT_URL_REGEX url = None)
  /\ (is_Some (ABOUT_URL_REGEX url) ->
      CHALLENGE_URL_REGEX url = None /\ RESOURCE_URL_REGEX url = None).
Proof.
  assert (forall word, ABOUT_URL_REGEX url = Some word ->
            CHALLENGE_URL_REGEX url = None /\ RESOURCE_URL_REGEX url = None)
    as Habout.
  { intros word Hm. by apply about_match_prefix in Hm as (rest & ->). }
  assert (forall filename, RESOURCE_URL_REGEX url = Some filename ->
            CHALLENGE_URL_REGEX url = None) as Hresource.
  { intros filename Hm. by eapply resource_not_challenge. }
  split; [| split].
  - intros Hchallenge. split.
    + destruct (RESOURCE_URL_REGEX url) as [filename|] eqn:Hm; [| done].
      rewrite (Hresource _ eq_refl) in Hchallenge. by destruct Hchallenge.
    + destruct (ABOUT_URL_REGEX url) as [word|] eqn:Hm; [| done].
      destruct (Habout _ eq_refl) as [Hc _].
      rewrite Hc in Hchallenge. by destruct Hchallenge.
  - intros [filename Hm]. split; [by eapply Hresource |].
    destruct (ABOUT_URL_REGEX url) as [word|] eqn:Ha; [| done].
    destruct (Habout _ eq_refl) as [_ Hr]. by rewrite Hr in Hm.
  - intros [word Hm]. by apply (Habout word).
Qed.

(** X2. The challenge pattern matches exactly the [href]s that begin with
    [problem=] and a digit, and the number it captures is the whole run of
    digits that follows the prefix, whatever comes after the run; the about
    pattern does the same with [about=] and word characters. *)
Theorem anchored_patterns_capture_longest_run (url : string) :
  (forall number,
     CHALLENGE_URL_REGEX url = Some number
     <-> number <> EmptyString /\ all_chars is_digit number = true
         /\ exists rest, url = "problem=" +:+ number +:+ rest
                         /\ starts_in is_digit rest = false)
  /\ (forall word,
        ABOUT_URL_REGEX url = Some word
        <-> word <> EmptyString /\ all_chars is_word word = true
            /\ exists rest, url = "about=" +:+ word +:+ rest
                            /\ starts_in is_word rest = false).
Proof.
  split; intros captured; unfold CHALLENGE_URL_REGEX, ABOUT_URL_REGEX; split.
  - intros Hm. apply lit_Some in Hm as (s & -> & Hm).
    apply plus_greedy_run_iff in Hm as (Hne & Hall & rest & -> & Hrest).
    repeat split; try done. by exists rest.
  - intros (Hne & Hall & rest & -> & Hrest). rewrite lit_append.
    apply plus_greedy_run_iff. repeat split; try done. by exists rest.
  - intros Hm. apply lit_Some in Hm as (s & -> & Hm).
    apply plus_greedy_run_iff in Hm as (Hne & Hall & rest & -> & Hrest).
    repeat split; try done. by exists rest.
  - intros (Hne & Hall & rest & -> & Hrest). rewrite lit_append.
    apply plus_greedy_run_iff. repeat split; try done. by exists rest.
Qed.

End PatternProperties.

(** ** The file name of a resource link *)

Section ResourceFileName.

(** The part of the resource pattern behind the directory name and its
    separator: the optional nested path and the file name. *)
Lemma resource_match_tail (url filename : string) :
  RESOURCE_URL_REGEX url = Some filename ->
  exists prefix s,
    url = prefix +:+ s
    /\ opt (fun k => plus_greedy is_dot (fun _ => lit "/" k))
         (plus_greedy is_dot (fun filename _ => Some filename)) s
       = Some filename.
Proof.
  unfold RESOURCE_URL_REGEX.
  set (tail := opt (R := string)
                 (fun k => plus_greedy is_dot (fun _ => lit "/" k))
                 (plus_greedy is_dot (fun filename _ => Some filename))).
  assert (forall t, alt (lit "resources") (lit "images") (lit "/" tail) t
                    = Some filename ->
            exists prefix s, t = prefix +:+ s /\ tail s = Some filename) as Hdir.
  { intros t. unfold alt.
    destruct (lit "resources" (lit "/" tail) t) as [r|] eqn:Hr.
    - intros [= ->]. apply lit_Some in Hr as (t1 & -> & Hr).
      apply lit_Some in Hr as (t2 & -> & Hr).
      exists ("resources" +:+ "/"), t2. by rewrite append_assoc.
    - intros Hi. apply lit_Some in Hi as (t1 & -> & Hi).
      apply lit_Some in Hi as (t2 & -> & Hi).
      exists ("images" +:+ "/"), t2. by rewrite append_assoc. }
  unfold opt at 1.
  destruct (lit "project/" _ url) as [r|] eqn:Hp.
  - intros [= ->]. apply lit_Some in Hp as (t & -> & Hp).
    destruct (Hdir _ Hp) as (prefix & s & -> & Hs).
    exists ("project/" +:+ prefix), s. by rewrite append_assoc.
  - apply Hdir.
Qed.

(** X3. The file name the resource pattern captures is not empty and has
    no line feed; the [href] continues behind it with a line feed or not at
    all; and a separator occurs in it only as its first or as its last
    character, never in between. *)
Theorem resource_file_name_shape (url filename : string) :
  RESOURCE_URL_REGEX url = Some filename ->
  filename <> EmptyString
  /\ all_chars is_dot filename = true
  /\ (exists before after,
        url = before +:+ filename +:+ after /\ starts_in is_dot after = false)
  /\ (forall f1 f2, filename = f1 +:+ String "/" f2 ->
        f1 = EmptyString \/ f2 = EmptyString).
Proof.
  intros Hm. apply resource_match_tail in Hm as (prefix & s & -> & Hm).
  unfold opt, plus_greedy in Hm.
  assert (forall f2 rest, f2 <> EmptyString ->
            all_chars is_dot f2 = true ->
            is_Some (plus_greedy_from is_dot (fun x (_ : string) => Some x)
                       EmptyString (f2 +:+ rest))) as Hnext.
  { intros [|c f2] rest Hne Hall; [done |]. cbn [all_chars] in Hall.
    apply andb_true_iff in Hall as [Hc _]. by apply plus_greedy_from_first. }
  destruct (plus_greedy_from is_dot _ EmptyString s) as [r|] eqn:Hgroup.
  - injection Hm as ->.
    apply plus_greedy_from_Some in Hgroup
      as (c & x & s' & -> & Hall & Hk & Hmax).
    apply lit_Some in Hk as (s2 & -> & Hk).
    apply (plus_greedy_run_iff is_dot) in Hk as (Hne & Hdot & rest & -> & Hrest).
    repeat split; try done.
    + exists (prefix +:+ String c x +:+ "/"), rest. split; [| done].
      by rewrite !append_assoc.
    + intros f1 f2 ->. right.
      destruct f2 as [|d f2]; [done |]. exfalso.
      rewrite all_chars_append in Hdot. apply andb_true_iff in Hdot as [Hf1 Hf2].
      cbn [all_chars] in Hf2. apply andb_true_iff in Hf2 as [_ Hf2].
      destruct (Hnext (String d f2) rest) as [r Hr]; [done.. |].
      assert (lit "/" (plus_greedy_from is_dot (fun x (_ : string) => Some x)
                         EmptyString)
                (String "/" (String d f2 +:+ rest)) = None) as Hnone.
      { apply (Hmax "/"%char f1); [| by cbn [all_chars]].
        by rewrite !append_assoc. }
      cbn [lit] in Hnone. rewrite ascii_eqb_refl in Hnone.
      by rewrite Hnone in Hr.
  - apply (plus_greedy_run_iff is_dot) in Hm as (Hne & Hdot & rest & -> & Hrest).
    repeat split; try done.
    + by exists prefix, rest.
    + intros f1 f2 ->.
      destruct f1 as [|c f1]; [by left |]. right.
      destruct f2 as [|d f2]; [done |]. exfalso.
      rewrite all_chars_append in Hdot. apply andb_true_iff in Hdot as [Hf1 Hf2].
      cbn [all_chars] in Hf2. apply andb_true_iff in Hf2 as [_ Hf2].
      destruct (Hnext (String d f2) rest) as [r Hr]; [done.. |].
      assert (lit "/" (plus_greedy_from is_dot (fun x (_ : string) => Some x)
                         EmptyString)
                (String "/" (String d f2 +:+ rest)) = None) as Hnone.
      { apply (plus_greedy_from_None _ _ _ _ Hgroup c f1); [| done].
        by rewrite !append_assoc. }
      cbn [lit] in Hnone. rewrite ascii_eqb_refl in Hnone.
      by rewrite Hnone in Hr.
Qed.

End ResourceFileName.

(** ** More about the tree *)

Section TreeProperties.

(** Every element [find_all_from] lists has the name that was asked for. *)
Lemma find_all_from_has_name name e :
  forall here p link,
    (p, link) ∈ find_all_from name here e -> has_name name link = true.
Proof.
  induction e as [s | s | n attrs cs IHcs] using PageElement_forall_ind;
    intros here p link Hin.
  - by apply elem_of_nil in Hin.
  - by apply elem_of_nil in Hin.
  - rewrite find_all_from_Tag in Hin. revert Hin. generalize 0.
    induction cs as [|c cs IH]; intros i Hin.
    + by apply elem_of_nil in Hin.
    + apply Forall_cons in IHcs as [IHc IHcs].
      cbn [find_all_children] in Hin.
      rewrite !elem_of_app in Hin. destruct Hin as [Hin | [Hin | Hin]].
      * destruct (has_name name c) eqn:Hc; [| by apply elem_of_nil in Hin].
        apply list_elem_of_singleton in Hin. by injection Hin as -> ->.
      * by eapply IHc.
      * by eapply IH.
Qed.

(** What [find_all_children] lists for the child with index [j]. *)
Lemma find_all_children_lookup name here i cs j c :
  cs !! j = Some c ->
  (has_name name c = true ->
   (here ++ [i + j], c) ∈ find_all_children name here i cs)
  /\ (forall p link,
        (p, link) ∈ find_all_from name (here ++ [i + j]) c ->
        (p, link) ∈ find_all_children name here i cs).
Proof.
  revert i j. induction cs as [|c' cs IH]; intros i j Hj; [done |].
  destruct j as [|j].
  - injection Hj as ->. rewrite Nat.add_0_r. cbn [find_all_children]. split.
    + intros ->. apply elem_of_app. left. by left.
    + intros p link Hin. rewrite !elem_of_app. right. by left.
  - cbn in Hj. destruct (IH (S i) j Hj) as [Hhead Hinside].
    replace (i + S j) with (S i + j) by lia.
    cbn [find_all_children]. split.
    + intros Hc. rewrite !elem_of_app. right. right. by apply Hhead.
    + intros p link Hin. rewrite !elem_of_app. right. right. by apply Hinside.
Qed.

(** [find_all_from] lists every element of the name below the node. *)
Lemma find_all_from_complete name q :
  forall here e j link,
    node_at (j :: q) e = Some link ->
    has_name name link = true ->
    (here ++ j :: q, link) ∈ find_all_from name here e.
Proof.
  induction q as [|j' q IH]; intros here e j link Hnode Hname;
    destruct e as [s | s | n attrs cs]; try done;
    cbn [node_at contents] in Hnode;
    destruct (cs !! j) as [c|] eqn:Hj; try done;
    rewrite find_all_from_Tag;
    destruct (find_all_children_lookup name here 0 cs j c Hj) as [Hhead Hinside];
    cbn [Nat.add] in Hhead, Hinside.
  - injection Hnode as ->. by apply Hhead.
  - apply Hinside.
    replace (here ++ j :: j' :: q) with ((here ++ [j]) ++ j' :: q)
      by by rewrite <- app_assoc.
    by apply IH.
Qed.

(** The elements [find_all] lists are the elements of the name that sit
    below the root. *)
Lemma find_all_spec content name p link :
  (p, link) ∈ find_all content name
  <-> p <> [] /\ node_at p content = Some link /\ has_name name link = true.
Proof.
  split.
  - intros Hin. repeat split.
    + destruct (find_all_from_paths _ _ _ _ _ Hin) as (j & q & ->). done.
    + by eapply find_all_node_at.
    + by eapply find_all_from_has_name.
  - intros (Hne & Hnode & Hname). destruct p as [|j q]; [done |].
    by apply (find_all_from_complete name q [] content j link).
Qed.

(** Below a node that was exchanged for a text node there is nothing, and
    the node itself has no name. *)
Lemma node_at_replace_at_below q p s root e name :
  path_prefix q p = true ->
  node_at p (replace_at q (NavigableString s) root) = Some e ->
  has_name name e = false.
Proof.
  revert p root. induction q as [|i q IH]; intros p root Hqp Hnode.
  - cbn [replace_at] in Hnode. destruct p as [|j p]; [| done].
    by injection Hnode as <-.
  - destruct p as [|j p]; [done |]. cbn [path_prefix] in Hqp.
    apply andb_true_iff in Hqp as [Hij Hqp]. apply Nat.eqb_eq in Hij as ->.
    destruct root as [t | t | n attrs cs]; [done.. |].
    cbn [replace_at node_at contents] in Hnode.
    rewrite list_lookup_alter_eq in Hnode.
    destruct (cs !! j) as [c|]; simpl in Hnode; [| done]. by eapply IH.
Qed.

(** A replacement below a node leaves the node where it is, with its
    name. *)
Lemma node_at_replace_at_above q p new root e' name :
  path_prefix q p = false ->
  path_prefix p q = true ->
  node_at p (replace_at q new root) = Some e' ->
  exists e, node_at p root = Some e /\ has_name name e = has_name name e'.
Proof.
  revert q root. induction p as [|j p IH]; intros q root Hqp Hpq Hnode.
  - destruct q as [|i q]; [done |].
    cbn [node_at] in *. injection Hnode as <-. exists root. split; [done |].
    by destruct root.
  - destruct q as [|i q]; [done |]. cbn [path_prefix] in Hqp, Hpq.
    apply andb_true_iff in Hpq as [Hij Hpq]. apply Nat.eqb_eq in Hij as ->.
    rewrite Nat.eqb_refl in Hqp.
    destruct root as [t | t | n attrs cs]; [done.. |].
    cbn [replace_at node_at contents] in *.
    rewrite list_lookup_alter_eq in Hnode.
    destruct (cs !! i) as [c|]; simpl in Hnode; [| done]. by eapply IH.
Qed.

(** Exchanging the node at [q] for a text node adds no link: the links of
    the new tree are links of the old tree, other than the one at [q]. *)
Lemma find_all_replace_with q s root name p link' :
  (p, link') ∈ find_all (replace_with q s root) name ->
  p <> q /\ exists link, (p, link) ∈ find_all root name.
Proof.
  unfold replace_with. rewrite find_all_spec. intros (Hne & Hnode & Hname).
  destruct (path_prefix q p) eqn:Hqp.
  { by rewrite (node_at_replace_at_below _ _ _ _ _ name Hqp Hnode) in Hname. }
  assert (p <> q) as Hpq.
  { intros ->. clear -Hqp. induction q as [|i q IH]; [done |].
    cbn [path_prefix] in Hqp. rewrite Nat.eqb_refl in Hqp. by apply IH. }
  split; [done |].
  destruct (path_prefix p q) eqn:Hpq'.
  - destruct (node_at_replace_at_above _ _ _ _ _ name Hqp Hpq' Hnode)
      as (link & Hlink & Hsame).
    exists link. apply find_all_spec. repeat split; [done.. |]. congruence.
  - rewrite node_at_replace_at_apart in Hnode by done.
    exists link'. by apply find_all_spec.
Qed.

End TreeProperties.

(** ** The link resolver as a whole *)

Section ResolverProperties.
Context `{Globals}.
Implicit Types (st : store) (links pre post : list (path * PageElement)).

(** X4. A link without [href] that the loop reaches makes the function
    raise [TypeError], an exception its docstring does not list; the
    function ends in the store it had when it reached the link. *)
Theorem link_without_href_raises_TypeError content pre p link post st :
  find_all content "a" = pre ++ (p, link) :: post ->
  convert_links pre (Store content ∅) = (st, Returned tt) ->
  get link "href" = None ->
  convert_urls_to_markdown content = (st, Raised TypeError).
Proof.
  intros Hlinks Hpre Hhref.
  rewrite convert_urls_to_markdown_eq, Hlinks, convert_links_app, Hpre.
  by rewrite convert_links_cons, convert_link_eq, Hhref.
Qed.

(** X5. The tree is changed in place and an exception undoes nothing: a
    link that the loop has processed, and that does not lie inside an
    earlier link, is a text node in the tree the function leaves behind,
    whatever the outcome, so also when a later link makes the function
    raise. *)
Theorem processed_links_stay_rewritten content pre p link post st' :
  find_all content "a" = pre ++ (p, link) :: post ->
  convert_links (pre ++ [(p, link)]) (Store content ∅) = (st', Returned tt) ->
  outermost p pre = true ->
  exists md, node_at p (tree (convert_urls_to_markdown content).1)
             = Some (NavigableString md).
Proof.
  intros Hlinks Hrun Hout.
  rewrite convert_links_app in Hrun.
  destruct (convert_links pre (Store content ∅)) as [st [[]|e']] eqn:Hpre;
    [| done].
  rewrite convert_links_cons, convert_link_eq in Hrun.
  destruct (get link "href") as [url|] eqn:Hhref; [| done].
  destruct (resolve url st) as [st1 [target|e']] eqn:Hresolve; [| done].
  destruct (link_rewritten _ _ _ _ _ _ _ _ _ Hlinks Hpre Hhref Hresolve)
    as (_ & Htree).
  eexists. by apply Htree.
Qed.

(** X6. The function touches nothing but links: a node that is not a
    link, does not contain one and does not lie inside one is in the tree
    the function leaves behind what it was before, whatever the outcome. *)
Theorem nodes_apart_from_links_untouched content p :
  outermost p (find_all content "a") = true ->
  holds_no_link p (find_all content "a") = true ->
  node_at p (tree (convert_urls_to_markdown content).1) = node_at p content.
Proof.
  intros Hout Hholds. rewrite convert_urls_to_markdown_store.
  rewrite convert_links_node_apart; [done |].
  intros q link Hin. split; [by eapply outermost_true |].
  unfold holds_no_link in Hholds. rewrite forallb_forall in Hholds.
  apply negb_true_iff. by apply (Hholds (q, link)), list_elem_of_In.
Qed.

(** X7. The dictionary is never written to: whatever the block and the
    outcome, the dictionary is empty when the function ends; the function
    returns nothing but [None]; and it never raises the naming-collision
    error. The only statement that adds an entry, and the test before it,
    follow the call of [sanitise_file_name] and are never reached. *)
Theorem remote_content_stays_empty content :
  remote_content (convert_urls_to_markdown content).1 = ∅
  /\ (forall final r,
        convert_urls_to_markdown content = (final, Returned r) -> r = None)
  /\ (forall msg, (convert_urls_to_markdown content).2 <> Raised (KeyError msg)).
Proof.
  pose proof (convert_urls_to_markdown_remote_content content) as Hempty.
  split; [exact Hempty |].
  rewrite convert_urls_to_markdown_eq in Hempty |- *.
  destruct (convert_links (find_all content "a") (Store content ∅))
    as [st [[]|e]] eqn:Hrun; cbn in Hempty |- *.
  - split; [| done]. intros final r [= <- <-].
    by destruct (decide (remote_content st = ∅)).
  - split; [done |]. intros msg [= ->].
    by apply (convert_links_no_KeyError _ _ _ _ Hrun msg).
Qed.

(** The links that are left after the loop has run through were there
    before and are none of the links it has processed. *)
Lemma convert_links_remaining links st st' p link' :
  convert_links links st = (st', Returned tt) ->
  (p, link') ∈ find_all (tree st') "a" ->
  (p ∉ fst <$> links) /\ exists link, (p, link) ∈ find_all (tree st) "a".
Proof.
  revert st. induction links as [|[q l] links IH]; intros st Hrun Hin.
  - injection Hrun as <-. split; [by intros ?%elem_of_nil | by exists link'].
  - rewrite convert_links_cons in Hrun.
    assert (exists md remote,
              convert_link (q, l) st
              = (Store (replace_with q md (tree st)) remote, Returned tt))
      as (md & remote & Hstep).
    { destruct (convert_link_cases q l st) as [(e & He & _) | (md & He & _)];
        [by rewrite He in Hrun | by eexists _, _]. }
    rewrite Hstep in Hrun.
    destruct (IH _ Hrun Hin) as (Hnotin & link1 & Hin1). cbn [tree] in Hin1.
    apply find_all_replace_with in Hin1 as (Hpq & link & Hlink).
    split; [| by exists link].
    cbn [fmap list_fmap fst]. intros [-> | Hrest]%elem_of_cons; done.
Qed.

(** When the loop has run through all links of a block, none is left. *)
Lemma convert_links_no_link_left content st' :
  convert_links (find_all content "a") (Store content ∅) = (st', Returned tt) ->
  find_all (tree st') "a" = [].
Proof.
  intros Hrun.
  destruct (find_all (tree st') "a") as [|[p link'] rest] eqn:Hleft; [done |].
  exfalso.
  destruct (convert_links_remaining _ _ _ p link' Hrun) as (Hnotin & link & Hin).
  { rewrite Hleft. by left. }
  apply Hnotin. cbn [tree] in Hin.
  apply list_elem_of_fmap. by exists (p, link).
Qed.

(** X9. When the function returns, no link is left in the block: every
    [a] element below the root has made room for a text node or went with
    the link it was inside of. *)
Theorem no_link_left_on_return content final r :
  convert_urls_to_markdown content = (final, Returned r) ->
  find_all (tree final) "a" = [].
Proof.
  rewrite convert_urls_to_markdown_eq.
  destruct (convert_links _ _) as [st' [[]|e]] eqn:Hrun; [| done].
  intros [= <- _]. by eapply convert_links_no_link_left.
Qed.

(** X14. Converting a converted block again does nothing: when the
    function has returned, a second call on the tree it left behind
    returns [None] and leaves the tree as it is. *)
Theorem second_conversion_changes_nothing content final r :
  convert_urls_to_markdown content = (final, Returned r) ->
  convert_urls_to_markdown (tree final) = (Store (tree final) ∅, Returned None).
Proof.
  rewrite (convert_urls_to_markdown_eq content).
  destruct (convert_links _ _) as [st' [[]|e]] eqn:Hrun; [| done].
  intros [= <- _].
  rewrite convert_urls_to_markdown_eq.
  by rewrite (convert_links_no_link_left _ _ Hrun).
Qed.

(** *** The text of the block *)

Lemma text_Tag n attrs cs :
  text (Tag n attrs cs) = foldr (fun c rest => text c +:+ rest) EmptyString cs.
Proof.
  cbn [text]. induction cs as [|c cs IH]; [done |]. cbn [foldr]. by rewrite IH.
Qed.

(** The text of the children of a tag when one child is altered. *)
Lemma text_children_alter (cs : list PageElement) i c :
  cs !! i = Some c ->
  exists before after,
    forall g : PageElement -> PageElement,
      foldr (fun c rest => text c +:+ rest) EmptyString (alter g i cs)
      = before +:+ text (g c) +:+ after.
Proof.
  revert i. induction cs as [|c' cs IH]; intros i Hi; [done |].
  destruct i as [|i].
  - injection Hi as ->. exists EmptyString. eexists. intros g. by cbn.
  - cbn in Hi. destruct (IH _ Hi) as (before & after & Halter).
    exists (text c' +:+ before), after. intros g.
    cbn [alter list_alter foldr]. change (list_alter g i cs) with (alter g i cs).
    by rewrite Halter, append_assoc.
Qed.

(** The text of a tree is the text of any of its nodes between two texts
    that do not depend on the node. *)
Lemma text_replace_at p root e :
  node_at p root = Some e ->
  exists before after,
    text root = before +:+ text e +:+ after
    /\ forall new, text (replace_at p new root) = before +:+ text new +:+ after.
Proof.
  revert root. induction p as [|i p IH]; intros root Hnode.
  - injection Hnode as ->. exists EmptyString, EmptyString.
    split; [by rewrite append_nil_r |]. intros new. cbn [replace_at append].
    by rewrite append_nil_r.
  - destruct root as [s | s | n attrs cs]; [done.. |].
    cbn [node_at contents] in Hnode.
    destruct (cs !! i) as [c|] eqn:Hi; [| done].
    destruct (IH _ Hnode) as (before & after & Htext & Hnew).
    destruct (text_children_alter cs i c Hi) as (left & right & Halter).
    exists (left +:+ before), (after +:+ right). split.
    + rewrite text_Tag. rewrite <- (list_alter_id id cs i) at 1 by done.
      rewrite Halter. cbn [id]. rewrite Htext. by rewrite !append_assoc.
    + intros new. cbn [replace_at]. rewrite text_Tag, Halter, Hnew.
      by rewrite !append_assoc.
Qed.

(** X10. Converting a link changes the text of the block at the link
    only: when the loop processes a link that does not lie inside an
    earlier link, the text of the block before and behind the link stays
    and the text of the link makes room for the Markdown link. The display
    text of the Markdown link is [.string] of the link, which need not be
    its text. *)
Theorem converting_a_link_changes_only_its_text
    content pre p link post st st' :
  find_all content "a" = pre ++ (p, link) :: post ->
  convert_links pre (Store content ∅) = (st, Returned tt) ->
  convert_link (p, link) st = (st', Returned tt) ->
  outermost p pre = true ->
  exists before after target,
    text (tree st) = before +:+ text link +:+ after
    /\ text (tree st')
       = before
         +:+ ("[" +:+ format (element_string link) +:+ "](" +:+ target +:+ ")")
         +:+ after.
Proof.
  intros Hlinks Hpre Hstep Hout.
  pose proof (link_in_place_when_reached _ _ _ _ _ Hlinks Hout) as Hplace.
  rewrite Hpre in Hplace. cbn [fst] in Hplace.
  destruct (text_replace_at _ _ _ Hplace) as (before & after & Htext & Hnew).
  rewrite convert_link_eq in Hstep.
  destruct (get link "href") as [url|]; [| done].
  destruct (resolve url st) as [st1 [target|e]] eqn:Hresolve; [| done].
  injection Hstep as <-.
  assert (st1 = st) as ->.
  { destruct (resolve_cases url st) as [(e & He & _) | (t & He & _)];
      rewrite He in Hresolve; by injection Hresolve as <-. }
  exists before, after, target. split; [done |].
  cbn [tree]. unfold replace_with. by rewrite Hnew.
Qed.

End ResolverProperties.

(** ** The text sanitiser as a whole *)

Section SanitiserProperties.

(** A literal without space and line feed begins the text with hard line
    breaks where it begins the text without them. *)
Lemma startswith_replace_LF (l s : string) :
  mem_char " " l = false ->
  mem_char LF l = false ->
  startswith l (replace_char LF hard_break s) = startswith l s.
Proof.
  revert s. induction l as [|a l IH]; intros s Hspace Hfeed; [done |].
  cbn [mem_char] in Hspace, Hfeed.
  apply orb_false_iff in Hspace as [Ha1 Hspace].
  apply orb_false_iff in Hfeed as [Ha2 Hfeed].
  rewrite Ascii.eqb_sym in Ha1. rewrite Ascii.eqb_sym in Ha2.
  destruct s as [|c s]; [done |]. cbn [replace_char].
  destruct (Ascii.eqb_spec c LF) as [->|Hc].
  - cbn. by rewrite Ha1, Ha2.
  - cbn [startswith]. by rewrite IH.
Qed.

Lemma contains_replace_LF (s : string) :
  contains "\operatorname{" (replace_char LF hard_break s)
  = contains "\operatorname{" s.
Proof.
  induction s as [|c s IH]; [done |].
  cbn [contains]. rewrite <- IH.
  rewrite <- (startswith_replace_LF "\operatorname{" (String c s)) by done.
  cbn [replace_char]. destruct (Ascii.eqb c LF); [| done].
  by cbn.
Qed.

(** X11. The workaround changes nothing in a text that does not contain
    [\operatorname{]: there the result with the flag set is the result
    without it, also when the text names the macro without a brace. *)
Theorem workaround_without_operator_block description :
  contains "\operatorname{" (text description) = false ->
  sanitise_tag_text description true = sanitise_tag_text description false.
Proof.
  intros Hfree. unfold sanitise_tag_text. cbn [andb].
  destruct (contains "\operatorname" _); [| done].
  apply operatorname_sub_free. by rewrite contains_replace_LF.
Qed.

(** X12. The operator-name pattern matches at the start of a text exactly
    when the text begins with [\operatorname{A}B=] for an [A] and a [B]
    that are not empty, have no line feed, and have no closing brace,
    respectively no equals sign, after their first character; these are
    the groups it captures. *)
Theorem operatorname_match_iff s A B rest :
  operatorname_match s = Some (A, B, rest)
  <-> s = "\operatorname{" +:+ A +:+ "}" +:+ B +:+ "=" +:+ rest
      /\ Spec.lazy_span "}" A = true
      /\ Spec.lazy_span "=" B = true.
Proof.
  split.
  - apply operatorname_match_spans.
  - intros (-> & HA & HB). by apply operatorname_match_occurrence.
Qed.

(** *** Hard line breaks *)

Lemma hard_breaks_after_replace (spaces : nat) (s : string) :
  Spec.hard_breaks_after spaces (replace_char LF hard_break s) = true.
Proof.
  revert spaces. induction s as [|c s IH]; intros spaces; [done |].
  cbn [replace_char]. destruct (Ascii.eqb_spec c LF) as [->|Hc].
  - cbn. by rewrite IH.
  - cbn [Spec.hard_breaks_after].
    replace (Ascii.eqb c LF) with false by (symmetry; by apply Ascii.eqb_neq).
    by destruct (Ascii.eqb c " ").
Qed.

(** A stretch without line feed that ends in a character other than the
    space hides the spaces before it. *)
Lemma hard_breaks_after_stretch (spaces : nat) (x : string) (c : ascii) (y : string) :
  all_chars is_dot x = true ->
  is_dot c = true ->
  Ascii.eqb c " " = false ->
  Spec.hard_breaks_after spaces (x +:+ String c y) = Spec.hard_breaks_after 0 y.
Proof.
  intros Hx Hc Hspace. revert spaces.
  induction x as [|d x IH]; intros spaces.
  - cbn [append Spec.hard_breaks_after]. unfold is_dot in Hc.
    apply negb_true_iff in Hc. by rewrite Hc, Hspace.
  - cbn [all_chars] in Hx. apply andb_true_iff in Hx as [Hd Hx].
    cbn [append Spec.hard_breaks_after]. unfold is_dot in Hd.
    apply negb_true_iff in Hd. rewrite Hd.
    destruct (Ascii.eqb d " "); by apply IH.
Qed.

Lemma hard_breaks_after_sub (fuel spaces : nat) (s : string) :
  Spec.hard_breaks_after spaces s = true ->
  Spec.hard_breaks_after spaces (operatorname_sub_fuel fuel s) = true.
Proof.
  revert spaces s. induction fuel as [|fuel IH]; intros spaces s Hs; [done |].
  cbn [operatorname_sub_fuel].
  destruct (operatorname_match s) as [[[A B] rest]|] eqn:Hm.
  - apply operatorname_match_spans in Hm as (-> & HA & HB).
    assert (all_chars is_dot A = true /\ all_chars is_dot B = true) as [HdA HdB].
    { destruct A as [|a A]; [done |]. destruct B as [|b B]; [done |].
      cbn [Spec.lazy_span all_chars] in *.
      apply andb_true_iff in HA as [HA _]. apply andb_true_iff in HB as [HB _].
      done. }
    unfold operatorname_replacement.
    replace ("\operatorname{" +:+ A +:+ "}" +:+ B +:+ "=" +:+ rest)
      with (("\operatorname{" +:+ A +:+ "}" +:+ B) +:+ String "=" rest) in Hs
      by by rewrite !append_assoc.
    replace (("\mathop{\text{" +:+ A +:+ "}}" +:+ B +:+ "=")
             +:+ operatorname_sub_fuel fuel rest)
      with (("\mathop{\text{" +:+ A +:+ "}}" +:+ B)
            +:+ String "=" (operatorname_sub_fuel fuel rest))
      by by rewrite !append_assoc.
    rewrite hard_breaks_after_stretch in Hs |- *; try done.
    + by apply IH.
    + rewrite !all_chars_append. by rewrite HdA, HdB.
    + rewrite !all_chars_append. by rewrite HdA, HdB.
  - destruct s as [|c s]; [done |].
    cbn [Spec.hard_breaks_after] in Hs |- *.
    destruct (Ascii.eqb c LF).
    + apply andb_true_iff in Hs as [Hn Hs]. rewrite Hn. by apply IH.
    + destruct (Ascii.eqb c " "); by apply IH.
Qed.

(** X13. With or without the workaround, every line feed of the result
    has two spaces right before it, so every line end of the result is a
    hard Markdown line break. *)
Theorem sanitise_tag_text_hard_breaks description github_workaround :
  Spec.hard_breaks_only (sanitise_tag_text description github_workaround) = true.
Proof.
  unfold Spec.hard_breaks_only, sanitise_tag_text.
  destruct (github_workaround && _).
  - apply hard_breaks_after_sub, hard_breaks_after_replace.
  - apply hard_breaks_after_replace.
Qed.

End SanitiserProperties.

(** ** The further properties at sample pages *)

Module PropertySamples.
Import Sample.

(** The file name keeps the separator that ends the [href]. *)
Lemma resource_file_name_shape_witness :
  "a/" <> EmptyString
  /\ all_chars is_dot "a/" = true
  /\ (exists before after,
        "resources/a/" = before +:+ "a/" +:+ after
        /\ starts_in is_dot after = false)
  /\ (forall f1 f2, "a/" = f1 +:+ String "/" f2 ->
        f1 = EmptyString \/ f2 = EmptyString).
Proof.
  apply (resource_file_name_shape "resources/a/" "a/").
  reflexivity.
Defined.

Lemma link_without_href_witness :
  run bare_link
  = (Store
       (replace_with [0] "[first](https://projecteuler.net/about=first)" bare_link)
       ∅,
     Raised TypeError).
Proof.
  apply (@link_without_href_raises_TypeError project_euler bare_link
           [about_first] [1] (snd bare) [about_last]).
  - reflexivity.
  - vm_compute. reflexivity.
  - reflexivity.
Defined.

(** The first link of the page with the mail link stays rewritten though
    the function raises at the second. *)
Lemma processed_links_stay_rewritten_witness :
  (exists md, node_at [0] (tree (run mail_link).1) = Some (NavigableString md))
  /\ (run mail_link).2
     = Raised (NotImplementedError
                 "A URL was found to an unknown resource type: mailto:test@example.com").
Proof.
  split.
  - apply (@processed_links_stay_rewritten project_euler mail_link
             [] [0] (snd challenge_007) [mail; after_mail]
             (Store
                (replace_with [0] "[seven](https://projecteuler.net/problem=007)"
                   mail_link)
                ∅)).
    + reflexivity.
    + vm_compute. reflexivity.
    + reflexivity.
  - vm_compute. reflexivity.
Defined.

Lemma nodes_apart_from_links_witness :
  node_at [0] (tree (run three_links).1) = Some (NavigableString "See ").
Proof.
  apply (@nodes_apart_from_links_untouched project_euler three_links [0]).
  - reflexivity.
  - reflexivity.
Defined.

Lemma no_link_left_witness : find_all (tree (run two_links).1) "a" = [].
Proof.
  apply (@no_link_left_on_return project_euler two_links
           (run two_links).1 None).
  vm_compute. reflexivity.
Defined.

Lemma second_conversion_witness :
  run (tree (run two_links).1) = (Store (tree (run two_links).1) ∅, Returned None).
Proof.
  apply (@second_conversion_changes_nothing project_euler two_links
           (run two_links).1 None).
  vm_compute. reflexivity.
Defined.

Lemma converting_a_link_witness :
  exists before after target,
    "See [problem 42](https://projecteuler.net/problem=42) and the puzzle."
      = before +:+ "the puzzle" +:+ after
    /\ "See [problem 42](https://projecteuler.net/problem=42) and [the puzzle](https://projecteuler.net/about=puzzle)."
       = before +:+ ("[" +:+ "the puzzle" +:+ "](" +:+ target +:+ ")") +:+ after.
Proof.
  destruct (@converting_a_link_changes_only_its_text project_euler two_links
              [challenge_42] [2; 1] (snd the_puzzle) []
              (Store
                 (replace_with [1]
                    "[problem 42](https://projecteuler.net/problem=42)" two_links)
                 ∅)
              (Store
                 (replace_with [2; 1]
                    "[the puzzle](https://projecteuler.net/about=puzzle)"
                    (replace_with [1]
                       "[problem 42](https://projecteuler.net/problem=42)"
                       two_links))
                 ∅))
    as (before & after & target & Hbefore & Hafter).
  - reflexivity.
  - vm_compute. reflexivity.
  - vm_compute. reflexivity.
  - reflexivity.
  - exists before, after, target. split; [exact Hbefore | exact Hafter].
Defined.

Lemma workaround_without_operator_block_witness :
  sanitise_tag_text macro_name_only true
  = "The \operatorname macro  " +:+ String LF "is not rendered.".
Proof.
  rewrite (workaround_without_operator_block macro_name_only).
  - reflexivity.
  - reflexivity.
Defined.

End PropertySamples.
